(** * StudioAINewsreader2: the article store of the newsreader client

    A shallow embedding of the client state manager of [src/index.tsx]
    (the multi-article variant, [addArticles] / [fetchArticlesFromSource])
    and of the listing in [src/README.md] (the single-article variant,
    [addArticle] / [fetchArticleFromBackend]).  The two listings share
    [handleSummarize], [removeArticle], [saveState] and [loadState]; they
    differ in the add path, the fetch path and in the wording of the
    summarization prompt.

    Modelling conventions.
    - A JavaScript string is a [string]; each character stands for one
      UTF-16 code unit below 256.
    - Article objects live in a heap and the module-level array [articles]
      holds references, because [handleSummarize] keeps a reference to the
      object it found across its [await] while [removeArticle] replaces the
      array and [addArticles] grows it.
    - [localStorage] maps keys to JSON documents.  The document is kept as a
      tree: [JSON.stringify] followed by [JSON.parse] is the identity on the
      documents written here, and the order of the keys of an object is not
      observed by any function of the program.
    - An [async] function is split at its [await]: the part that runs
      synchronously on invocation, and the part that runs when the awaited
      call settles.  Outbound calls and [alert]s are logged in the state.
    - The DOM is reduced to what the functions below read or write back:
      the display of the settings modal and the state of the fetch button.
      [renderArticles] is kept by the values it interpolates into the
      markup of the grid (one card per article), not by the markup itself;
      what [console.error] prints is left out.
    - [localStorage.setItem] is taken to succeed. *)

From stdpp Require Import base option list gmap strings fin_maps pretty.


(** ** Strings: [String.prototype.trim] *)

(** White space and line terminators of ECMAScript among the code units
    below 256: TAB, LF, VT, FF, CR, SPACE and NBSP. *)
Definition isWhiteSpace (c : Ascii.ascii) : bool :=
  let n := Ascii.nat_of_ascii c in
  (Nat.leb 9 n && Nat.leb n 13) || Nat.eqb n 32 || Nat.eqb n 160.

Fixpoint trimStart (s : string) : string :=
  match s with
  | EmptyString => EmptyString
  | String c r => if isWhiteSpace c then trimStart r else s
  end.

Fixpoint trimEnd (s : string) : string :=
  match s with
  | EmptyString => EmptyString
  | String c r =>
      match trimEnd r with
      | EmptyString => if isWhiteSpace c then EmptyString else String c EmptyString
      | r' => String c r'
      end
  end.

Definition trim (s : string) : string := trimEnd (trimStart s).

(** ** Data model *)

Record Article := mkArticle {
  id : string;
  title : string;
  content : string;
  source : string;
  summary : option string;        (* summary?: string *)
  isSummarizing : option bool     (* isSummarizing?: boolean *)
}.

Record BackendSettings := mkBackendSettings {
  url : string;
  key : string
}.

Definition set_summary (v : option string) (a : Article) : Article :=
  mkArticle (id a) (title a) (content a) (source a) v (isSummarizing a).

Definition set_isSummarizing (v : option bool) (a : Article) : Article :=
  mkArticle (id a) (title a) (content a) (source a) (summary a) v.

Definition set_id (v : string) (a : Article) : Article :=
  mkArticle v (title a) (content a) (source a) (summary a) (isSummarizing a).

(** Truthiness of the values the guards test. *)
Definition truthy_bool (v : option bool) : bool :=
  match v with Some true => true | _ => false end.

Definition truthy_string (v : option string) : bool :=
  match v with
  | Some EmptyString | None => false
  | Some _ => true
  end.

(** ** JSON documents *)

#[warnings="-register-all"] Inductive json :=
| JNull
| JBool (b : bool)
| JStr (s : string)
| JArr (xs : list json)
| JObj (fields : list (string * json)).

(** A property whose value is [undefined] is omitted by [JSON.stringify]. *)
Definition optField (k : string) (v : option json) : list (string * json) :=
  match v with
  | Some j => [(k, j)]
  | None => []
  end.

Definition article_to_json (a : Article) : json :=
  JObj ([("id", JStr (id a)); ("title", JStr (title a));
         ("content", JStr (content a)); ("source", JStr (source a))]
        ++ optField "summary" (JStr <$> summary a)
        ++ optField "isSummarizing" (JBool <$> isSummarizing a)).

Definition settings_to_json (b : BackendSettings) : json :=
  JObj [("url", JStr (url b)); ("key", JStr (key b))].

Fixpoint field (k : string) (fields : list (string * json)) : option json :=
  match fields with
  | [] => None
  | (k', v) :: rest => if decide (k' = k) then Some v else field k rest
  end.

Definition as_string (j : option json) : option string :=
  match j with Some (JStr s) => Some s | _ => None end.

Definition as_bool (j : option json) : option bool :=
  match j with Some (JBool b) => Some b | _ => None end.

(** Reading back an object as an [Article]; [None] when a required field
    is not a string, which [saveState] never writes. *)
Definition article_of_json (j : json) : option Article :=
  match j with
  | JObj fs =>
      i ← as_string (field "id" fs);
      t ← as_string (field "title" fs);
      c ← as_string (field "content" fs);
      s ← as_string (field "source" fs);
      Some (mkArticle i t c s (as_string (field "summary" fs))
                      (as_bool (field "isSummarizing" fs)))
  | _ => None
  end.


(** ** Application state *)

(** References to article objects: positions in the heap. *)
Abbreviation loc := nat (only parsing).

Record GenerateContentRequest := mkGenerateContentRequest {
  model : string;
  contents : string
}.

(** The request of [fetch]: the backend URL it is built from, the
    pathname put in place of its own (none when the assignment to
    [pathname] has no effect, the URL having an opaque path), the [url]
    query parameter and the [Authorization] header. *)
Record FetchRequest := mkFetchRequest {
  fetch_base : string;
  fetch_pathname : option string;
  fetch_param_url : string;
  fetch_authorization : string
}.

Record State := mkState {
  heap : list Article;                       (* article objects, by reference *)
  articles : list loc;                       (* let articles: Article[] *)
  backendSettings : option BackendSettings;  (* BackendSettings | null *)
  localStorage : gmap string json;
  settingsModalOpen : bool;                  (* settingsModal.style.display *)
  addUrlBtnDisabled : bool;
  alerts : list string;                      (* alert(...) shown so far *)
  generateCalls : list GenerateContentRequest; (* ai.models.generateContent *)
  fetchCalls : list FetchRequest;            (* fetch(...) *)
  summarizing : list loc                     (* handleSummarize suspended at its await *)
}.

Definition set_heap (h : list Article) (s : State) : State :=
  mkState h (articles s) (backendSettings s) (localStorage s)
    (settingsModalOpen s) (addUrlBtnDisabled s) (alerts s)
    (generateCalls s) (fetchCalls s) (summarizing s).

Definition set_articles (l : list loc) (s : State) : State :=
  mkState (heap s) l (backendSettings s) (localStorage s)
    (settingsModalOpen s) (addUrlBtnDisabled s) (alerts s)
    (generateCalls s) (fetchCalls s) (summarizing s).

Definition set_backendSettings (b : option BackendSettings) (s : State) : State :=
  mkState (heap s) (articles s) b (localStorage s)
    (settingsModalOpen s) (addUrlBtnDisabled s) (alerts s)
    (generateCalls s) (fetchCalls s) (summarizing s).

Definition set_localStorage (m : gmap string json) (s : State) : State :=
  mkState (heap s) (articles s) (backendSettings s) m
    (settingsModalOpen s) (addUrlBtnDisabled s) (alerts s)
    (generateCalls s) (fetchCalls s) (summarizing s).

Definition set_settingsModalOpen (b : bool) (s : State) : State :=
  mkState (heap s) (articles s) (backendSettings s) (localStorage s)
    b (addUrlBtnDisabled s) (alerts s)
    (generateCalls s) (fetchCalls s) (summarizing s).

Definition set_addUrlBtnDisabled (b : bool) (s : State) : State :=
  mkState (heap s) (articles s) (backendSettings s) (localStorage s)
    (settingsModalOpen s) b (alerts s)
    (generateCalls s) (fetchCalls s) (summarizing s).

Definition alert (msg : string) (s : State) : State :=
  mkState (heap s) (articles s) (backendSettings s) (localStorage s)
    (settingsModalOpen s) (addUrlBtnDisabled s) (alerts s ++ [msg])
    (generateCalls s) (fetchCalls s) (summarizing s).

Definition generateContent (r : GenerateContentRequest) (s : State) : State :=
  mkState (heap s) (articles s) (backendSettings s) (localStorage s)
    (settingsModalOpen s) (addUrlBtnDisabled s) (alerts s)
    (generateCalls s ++ [r]) (fetchCalls s) (summarizing s).

Definition fetch (r : FetchRequest) (s : State) : State :=
  mkState (heap s) (articles s) (backendSettings s) (localStorage s)
    (settingsModalOpen s) (addUrlBtnDisabled s) (alerts s)
    (generateCalls s) (fetchCalls s ++ [r]) (summarizing s).

Definition set_summarizing (l : list loc) (s : State) : State :=
  mkState (heap s) (articles s) (backendSettings s) (localStorage s)
    (settingsModalOpen s) (addUrlBtnDisabled s) (alerts s)
    (generateCalls s) (fetchCalls s) l.

(** The objects the array refers to, in order. *)
Definition articleObjects (s : State) : list Article :=
  omap (λ l, heap s !! l) (articles s).

(** ** Persistence *)

Definition articlesKey : string := "newsreader-articles".
Definition settingsKey : string := "newsreader-backend-settings".

(** [JSON.stringify(articles)] *)
Definition stringify_articles (arts : list Article) : json :=
  JArr (article_to_json <$> arts).

Definition saveState (s : State) : State :=
  let ls1 := <[articlesKey := stringify_articles (articleObjects s)]> (localStorage s) in
  let ls2 :=
    match backendSettings s with
    | Some b => <[settingsKey := settings_to_json b]> ls1
    | None => ls1
    end in
  set_localStorage ls2 s.

(** ** Article store *)

(** The two listings of the client. *)
Inductive Variant :=
| MultiArticle     (* src/index.tsx *)
| SingleArticle.   (* the listing in src/README.md *)

Definition LF : string := String (Ascii.ascii_of_nat 10) EmptyString.

(** The template literal [prompt] of [handleSummarize]. *)
Definition summarizePrompt (v : Variant) (article : Article) : string :=
  match v with
  | MultiArticle => "Summarize the following web article in a concise paragraph:"
  | SingleArticle => "Summarize the following article in a concise paragraph:"
  end
  +:+ LF +:+ LF +:+ "---" +:+ LF +:+ LF +:+ "Title: " +:+ title article
  +:+ LF +:+ LF +:+ content article.

Definition summarizeModel : string := "gemini-2.5-flash".

(** [articles.find(a => a.id === articleId)]: the first reference whose
    object carries the id, with the object it refers to. *)
Fixpoint find_by_id (h : list Article) (articleId : string) (ls : list loc)
  : option (loc * Article) :=
  match ls with
  | [] => None
  | l :: rest =>
      match h !! l with
      | Some a =>
          if decide (id a = articleId) then Some (l, a)
          else find_by_id h articleId rest
      | None => find_by_id h articleId rest
      end
  end.

(** How the awaited [generateContent] call settles: fulfilled with a
    response whose [text] is a string or [undefined], or rejected. *)
Inductive Settled :=
| Fulfilled (text : option string)
| Rejected.

Definition summarizeFailedMsg : string :=
  "Could not summarize the article. Please check the console for details.".

(** [handleSummarize], from its invocation to its [await]. *)
Definition handleSummarize (v : Variant) (articleId : string) (s : State) : State :=
  match find_by_id (heap s) articleId (articles s) with
  | None => s
  | Some (l, article) =>
      if truthy_bool (isSummarizing article) then s
      else
        let article' := set_isSummarizing (Some true) article in
        let s1 := set_heap (<[l := article']> (heap s)) s in
        let s2 := generateContent
                    (mkGenerateContentRequest summarizeModel (summarizePrompt v article')) s1 in
        set_summarizing (summarizing s2 ++ [l]) s2
  end.

Fixpoint remove_one (l : loc) (ls : list loc) : list loc :=
  match ls with
  | [] => []
  | x :: rest => if decide (x = l) then rest else x :: remove_one l rest
  end.

(** [handleSummarize], from the settling of the awaited call to its end:
    the assignment of the summary or the [catch] block, then [finally].
    [response.text.trim()] throws when [text] is [undefined], which the
    [catch] block handles like a rejected call. *)
Definition handleSummarize_resume (l : loc) (r : Settled) (s : State) : State :=
  let s1 :=
    match r with
    | Fulfilled (Some text) =>
        set_heap (alter (set_summary (Some (trim text))) l (heap s)) s
    | Fulfilled None | Rejected => alert summarizeFailedMsg s
    end in
  let s2 := set_heap (alter (set_isSummarizing (Some false)) l (heap s1)) s1 in
  let s3 := saveState s2 in
  set_summarizing (remove_one l (summarizing s3)) s3.

(** [existingArt.source === newArt.source] on two references. *)
Definition sameSource (h : list Article) (existingArt newArt : loc) : bool :=
  match h !! existingArt, h !! newArt with
  | Some a, Some b => bool_decide (source a = source b)
  | _, _ => false
  end.

Definition sourceListed (s : State) (newArt : loc) : bool :=
  existsb (λ existingArt, sameSource (heap s) existingArt newArt) (articles s).

Definition noNewArticlesMsg : string := "No new articles found from this source.".

(** [addArticles] of src/index.tsx. *)
Definition addArticles (newArticles : list loc) (s : State) : State :=
  let uniqueNewArticles := List.filter (λ newArt, negb (sourceListed s newArt)) newArticles in
  match uniqueNewArticles with
  | [] => alert noNewArticlesMsg s
  | _ => saveState (set_articles (uniqueNewArticles ++ articles s) s)
  end.

(** [addArticle] of the README listing. *)
Definition addArticle (article : loc) (s : State) : State :=
  saveState (set_articles (article :: articles s) s).

Definition removeArticle (articleId : string) (s : State) : State :=
  let keep (l : loc) : bool :=
    match heap s !! l with
    | Some a => bool_decide (id a ≠ articleId)
    | None => true
    end in
  saveState (set_articles (List.filter keep (articles s)) s).

(** New objects: the references of the objects appended to the heap. *)
Definition allocate (objs : list Article) (s : State) : list loc * State :=
  (seq (length (heap s)) (length objs), set_heap (heap s ++ objs) s).

Definition allocate1 (obj : Article) (s : State) : loc * State :=
  (length (heap s), set_heap (heap s ++ [obj]) s).




Definition openSettingsModal (s : State) : State := set_settingsModalOpen true s.
Definition closeSettingsModal (s : State) : State := set_settingsModalOpen false s.

(** [saveSettings], given the values of the two inputs of the form. *)
Definition saveSettings (backendUrlInput backendKeyInput : string) (s : State) : State :=
  let s1 := set_backendSettings
              (Some (mkBackendSettings (trim backendUrlInput) (trim backendKeyInput))) s in
  alert "Settings saved successfully." (closeSettingsModal (saveState s1)).

(** ** URL ingestion *)

Definition notConfiguredMsg : string :=
  "Backend settings are not configured. Please configure them first.".

(** [!backendSettings?.url || !backendSettings?.key] *)
Definition settingsMissing (b : option BackendSettings) : bool :=
  negb (truthy_string (url <$> b)) || negb (truthy_string (key <$> b)).

(** How the awaited [fetch] and the reading of its body settle. *)
Inductive FetchSettled :=
| FetchThrew (message : string)                 (* fetch or response.json() rejects *)
| FetchNotOk (error : option string) (status : N) (* !response.ok, errorData.error *)
| FetchOk (data : list Article).                (* the parsed body; ids are assigned here *)

Definition fetchErrorMessage (r : FetchSettled) : option string :=
  match r with
  | FetchThrew m => Some m
  | FetchNotOk e status =>
      Some (if truthy_string e then default "" e
            else "Failed to fetch with status: " +:+ pretty status)
  | FetchOk _ => None
  end.

Section Fetch.
(** [new URL(x)]: [None] when the string is accepted, otherwise the
    message of the error thrown. *)
Variable URL_error : string → option string.

(** Whether the URL the string parses to has an opaque path (as
    "localhost:5000" has, which reads as a scheme and a path): an
    assignment to [pathname] is then ignored. *)
Variable URL_opaquePath : string → bool.

(** [fetchUrl.pathname = p] on the URL built from [base]. *)
Definition assignedPathname (base p : string) : option string :=
  if URL_opaquePath base then None else Some p.

(** [fetchArticlesFromSource] up to its [await fetch]. *)
Definition fetchArticlesFromSource (u : string) (s : State) : State :=
  if settingsMissing (backendSettings s) then
    openSettingsModal (alert notConfiguredMsg s)
  else
    match backendSettings s with
    | None => s
    | Some b =>
        let s1 := set_addUrlBtnDisabled true s in
        match URL_error (url b) with
        | Some m =>
            set_addUrlBtnDisabled false (alert ("Could not fetch articles: " +:+ m) s1)
        | None =>
            fetch (mkFetchRequest (url b) (assignedPathname (url b) "/fetch-source")
                     u ("Bearer " +:+ key b)) s1
        end
    end.

(** [fetchArticleFromBackend] of the README listing up to its [await]. *)
Definition fetchArticleFromBackend (u : string) (s : State) : State :=
  if settingsMissing (backendSettings s) then
    openSettingsModal (alert notConfiguredMsg s)
  else
    match backendSettings s with
    | None => s
    | Some b =>
        let s1 := set_addUrlBtnDisabled true s in
        match URL_error (url b) with
        | Some m =>
            set_addUrlBtnDisabled false (alert ("Could not fetch the article: " +:+ m) s1)
        | None =>
            fetch (mkFetchRequest (url b) (assignedPathname (url b) "/fetch-url")
                     u ("Bearer " +:+ key b)) s1
        end
    end.
End Fetch.

(** The objects [data.map((art, index) => ({...art, id: ...}))] builds,
    [now index] being the value [Date.now()] returns when the callback
    runs for [index]. *)
Definition newArticlesOf (now : nat → N) (data : list Article) : list Article :=
  imap (λ index art,
          set_id ("art-" +:+ pretty (now index) +:+ "-" +:+ pretty (N.of_nat index)) art)
       data.

(** [fetchArticlesFromSource] after its [await]. *)
Definition fetchArticlesFromSource_resume (now : nat → N) (r : FetchSettled)
    (s : State) : State :=
  let s1 :=
    match r with
    | FetchOk data =>
        let '(newArticles, s') := allocate (newArticlesOf now data) s in
        addArticles newArticles s'
    | _ => alert ("Could not fetch articles: " +:+ default "" (fetchErrorMessage r)) s
    end in
  set_addUrlBtnDisabled false s1.

(** The submit handler of the paste form of the README listing. *)
Definition submitText (now : N) (articleTitleInput articleTextInput : string)
    (s : State) : State :=
  let t := trim articleTitleInput in
  let c := trim articleTextInput in
  if truthy_string (Some t) && truthy_string (Some c) then
    let newArticle := mkArticle ("text-" +:+ pretty now) t c "Pasted Text" None None in
    let '(l, s') := allocate1 newArticle s in
    addArticle l s'
  else alert "Please provide both a title and content for the article." s.

(** ** Operations of the store as events *)

Inductive Op :=
| OpAddArticles (data : list Article)    (* index.tsx: new objects, then addArticles *)
| OpAddArticle (a : Article)             (* README listing: a new object, then addArticle *)
| OpRemove (articleId : string)
| OpSummarize (articleId : string)       (* handleSummarize is invoked *)
| OpSummarizeSettled (l : loc) (r : Settled). (* its awaited call settles *)

Definition exec (v : Variant) (op : Op) (s : State) : option State :=
  match op with
  | OpAddArticles data =>
      let '(ls, s') := allocate data s in Some (addArticles ls s')
  | OpAddArticle a =>
      let '(l, s') := allocate1 a s in Some (addArticle l s')
  | OpRemove articleId => Some (removeArticle articleId s)
  | OpSummarize articleId => Some (handleSummarize v articleId s)
  | OpSummarizeSettled l r =>
      if decide (l ∈ summarizing s) then Some (handleSummarize_resume l r s)
      else None
  end.

Fixpoint run (v : Variant) (ops : list Op) (s : State) : option State :=
  match ops with
  | [] => Some s
  | op :: rest => s' ← exec v op s; run v rest s'
  end.

(** ** State predicates *)

(** No drift: the stored snapshot is the serialization of the list. *)
Definition NoDrift (s : State) : Prop :=
  localStorage s !! articlesKey = Some (stringify_articles (articleObjects s)).

(** References are valid. *)
Definition wf (s : State) : Prop :=
  Forall (λ l, l < length (heap s)) (articles s)
  ∧ Forall (λ l, l < length (heap s)) (summarizing s).

Definition emptyState : State :=
  mkState [] [] None ∅ false false [] [] [] [].

(** ** Sample states *)

Definition sampleA : Article :=
  mkArticle "art-1700000000000-0" "Alpha" "First body" "https://news.example/a" None None.

Definition sampleB : Article :=
  mkArticle "art-1700000000000-1" "Beta" "Second body" "https://news.example/b" None None.

(** Two stored articles, nothing outstanding, snapshot up to date. *)
Definition sampleState : State :=
  saveState (mkState [sampleA; sampleB] [0; 1] None ∅ false false [] [] [] []).

Definition sampleDup1 : Article :=
  mkArticle "art-1700000000500-0" "Alpha again" "Body" "https://news.example/a" None None.

Definition sampleDup2 : Article :=
  mkArticle "art-1700000000500-1" "Alpha once more" "Body 2" "https://news.example/a" None None.

Definition sampleNew1 : Article :=
  mkArticle "art-1700000000900-0" "Gamma" "Third body" "https://news.example/c" None None.

Definition sampleNew2 : Article :=
  mkArticle "art-1700000000900-1" "Gamma bis" "Fourth body" "https://news.example/c" None None.

(** [sampleState] after the fetch continuation has built the objects of a
    batch whose two members carry the source of [sampleA]. *)
Definition sampleDupBatchState : State :=
  (allocate [sampleDup1; sampleDup2] sampleState).2.

(** The same with a batch whose two members share a source that is new. *)
Definition sampleNewBatchState : State :=
  (allocate [sampleNew1; sampleNew2] sampleState).2.

(** [source] of the incoming object is the source of no listed object. *)
Definition sourceKnown (existing : list Article) (newArt : Article) : bool :=
  existsb (λ existingArt, bool_decide (source existingArt = source newArt)) existing.

(** ** What trimming means *)

Fixpoint allWhiteSpace (s : string) : bool :=
  match s with
  | EmptyString => true
  | String c r => isWhiteSpace c && allWhiteSpace r
  end.

Definition startsWithWhiteSpace (s : string) : bool :=
  match s with
  | EmptyString => false
  | String c _ => isWhiteSpace c
  end.

Fixpoint endsWithWhiteSpace (s : string) : bool :=
  match s with
  | EmptyString => false
  | String c EmptyString => isWhiteSpace c
  | String _ r => endsWithWhiteSpace r
  end.

(** The prompt as the specification words it, for a title and a content. *)
Definition specifiedPrompt (t c : string) : string :=
  "Summarize the following article in a concise paragraph:"
  +:+ LF +:+ LF +:+ "---" +:+ LF +:+ LF +:+ "Title: " +:+ t +:+ LF +:+ LF +:+ c.

(** ** Outstanding calls *)

(** The event is the settling of a call held for the object [l]. *)
Definition settlesCall (l : loc) (op : Op) : bool :=
  match op with
  | OpSummarizeSettled l' _ => bool_decide (l' = l)
  | _ => false
  end.

(** A call for the object [l] is outstanding: the object is as
    [handleSummarize] left it at its [await], and its continuation is
    suspended. *)
Definition awaiting (l : loc) (a : Article) (s : State) : Prop :=
  heap s !! l = Some (set_isSummarizing (Some true) a) ∧ l ∈ summarizing s.

(** The call failed: it was rejected, or fulfilled without a text. *)
Definition failed (r : Settled) : Prop := r = Rejected ∨ r = Fulfilled None.

(** ** The snapshot and the list *)

Definition clearFlag (a : Article) : Article := set_isSummarizing None a.

(** The stored snapshot is the serialization of a list that differs from
    the current one in [isSummarizing] flags at most. *)
Definition SnapshotUpToFlags (s : State) : Prop :=
  ∃ snap, localStorage s !! articlesKey = Some (stringify_articles snap)
          ∧ clearFlag <$> snap = clearFlag <$> articleObjects s.

(** The events that end with [saveState] whatever the state. *)
Definition writesSnapshot (op : Op) : bool :=
  match op with
  | OpAddArticle _ | OpRemove _ | OpSummarizeSettled _ _ => true
  | OpAddArticles _ | OpSummarize _ => false
  end.


(** ** The rest of the client: forms, grid and start-up *)

(** The submit handler of the URL form: the trimmed value of the input is
    ignored when empty, refused with a notice when [new URL] throws on it,
    and otherwise handed to the fetch function of the listing. *)
Definition addUrlForm_submit (URL_error : string → option string)
    (URL_opaquePath : string → bool) (v : Variant)
    (sourceUrlInput : string) (s : State) : State :=
  let u := trim sourceUrlInput in
  if truthy_string (Some u) then
    match URL_error u with
    | None =>
        match v with
        | MultiArticle => fetchArticlesFromSource URL_error URL_opaquePath u s
        | SingleArticle => fetchArticleFromBackend URL_error URL_opaquePath u s
        end
    | Some _ => alert "Please enter a valid URL." s
    end
  else s.

(** [summary.replace(/\n/g, '<br>')] *)
Fixpoint replaceNewlines (s : string) : string :=
  match s with
  | EmptyString => EmptyString
  | String c r =>
      if Ascii.eqb c (Ascii.ascii_of_nat 10) then "<br>" +:+ replaceNewlines r
      else String c (replaceNewlines r)
  end.

(** What [renderArticles] puts in the actions slot of a card. *)
Inductive Actions :=
| ActLoader                        (* the loader and "Summarizing..." *)
| ActSummarize (dataId : string)   (* the Summarize button and its data-id *)
| ActNone.

(** A card of the grid, by the values [renderArticles] interpolates into
    its markup. *)
Record Card := mkCard {
  card_dataId : string;
  card_title : string;
  card_content : string;
  card_summary : option string;    (* the paragraph of the summary block, if shown *)
  card_actions : Actions;
  card_source : string;
  card_removeId : string           (* data-id of the Remove button *)
}.

Definition renderCard (article : Article) : Card :=
  mkCard (id article) (title article) (content article)
    (if truthy_string (summary article)
     then replaceNewlines <$> summary article else None)
    (if truthy_bool (isSummarizing article) then ActLoader
     else if negb (truthy_string (summary article)) then ActSummarize (id article)
     else ActNone)
    (source article) (id article).

(** The grid: the placeholder paragraph, or one card per article. *)
Inductive Grid :=
| GridEmpty
| GridCards (cards : list Card).

Definition renderArticles (s : State) : Grid :=
  match articles s with
  | [] => GridEmpty
  | _ => GridCards (renderCard <$> articleObjects s)
  end.

(** The button a click in the grid lands on, by what the handler reads. *)
Record Button := mkButton {
  hasSummarizeClass : bool;        (* classList.contains('summarize-btn') *)
  hasRemoveClass : bool;           (* classList.contains('remove-article-btn') *)
  datasetId : option string        (* button.dataset.id *)
}.

(** The delegated click handler of the grid; [button] is the result of
    [target.closest('button')], [confirmed] the answer to [confirm]. *)
Definition articlesGrid_click (v : Variant) (button : option Button)
    (confirmed : bool) (s : State) : State :=
  match button with
  | None => s
  | Some b =>
      if truthy_string (datasetId b) then
        let articleId := default "" (datasetId b) in
        if hasSummarizeClass b then handleSummarize v articleId s
        else if hasRemoveClass b then
          (if confirmed then removeArticle articleId s else s)
        else s
      else s
  end.

(** The buttons [renderArticles] creates for a card. *)
Definition summarizeButtonOf (c : Card) : option Button :=
  match card_actions c with
  | ActSummarize i => Some (mkButton true false (Some i))
  | _ => None
  end.

Definition removeButtonOf (c : Card) : Button :=
  mkButton false true (Some (card_removeId c)).


(** Every outstanding call holds its own object, and that object is
    flagged. *)
Definition pendingFlagged (s : State) : Prop :=
  NoDup (summarizing s)
  ∧ Forall (λ l, ∃ a, heap s !! l = Some a ∧ isSummarizing a = Some true)
      (summarizing s).

(** What [saveState] leaves in the storage [m], for the listed objects
    [objs] and the settings [b]. *)
Definition storedBy (objs : list Article) (b : option BackendSettings)
    (m : gmap string json) : gmap string json :=
  let m1 := <[articlesKey := stringify_articles objs]> m in
  match b with
  | Some x => <[settingsKey := settings_to_json x]> m1
  | None => m1
  end.

(** [a => a.id !== articleId], on objects. *)
Definition keepsId (articleId : string) (a : Article) : bool :=
  bool_decide (id a ≠ articleId).

(** What the continuation of [handleSummarize] does to its object, and
    the notices it shows. *)
Definition settle (r : Settled) (a : Article) : Article :=
  set_isSummarizing (Some false)
    match r with
    | Fulfilled (Some text) => set_summary (Some (trim text)) a
    | _ => a
    end.

Definition settleAlerts (r : Settled) : list string :=
  match r with
  | Fulfilled (Some _) => []
  | _ => [summarizeFailedMsg]
  end.

(** The event is the settling of some call. *)
Definition isSettling (op : Op) : bool :=
  match op with
  | OpSummarizeSettled _ _ => true
  | _ => false
  end.

(** How the awaited [fetch] of the README listing settles: its body is
    one object with a title and a content. *)
Inductive FetchOneSettled :=
| FetchOneThrew (message : string)
| FetchOneNotOk (error : option string) (status : N)
| FetchOneOk (dataTitle dataContent : string).

(** [fetchArticleFromBackend] after its [await]; [u] is the URL the
    function was called with. *)
Definition fetchArticleFromBackend_resume (now : N) (u : string)
    (r : FetchOneSettled) (s : State) : State :=
  let s1 :=
    match r with
    | FetchOneOk dataTitle dataContent =>
        let newArticle :=
          mkArticle ("url-" +:+ pretty now) dataTitle dataContent u None None in
        let '(l, s') := allocate1 newArticle s in
        addArticle l s'
    | FetchOneThrew m => alert ("Could not fetch the article: " +:+ m) s
    | FetchOneNotOk e status =>
        alert ("Could not fetch the article: "
               +:+ default "" (fetchErrorMessage (FetchNotOk e status))) s
    end in
  set_addUrlBtnDisabled false s1.

(** The string holds a hyphen. *)
Fixpoint hasDash (s : string) : bool :=
  match s with
  | EmptyString => false
  | String c r => Ascii.eqb c (Ascii.ascii_of_nat 45) || hasDash r
  end.

(** ** Writes and unsaved flags *)

(** [addArticles] finds something new among the objects built from
    [data]: its filter keeps at least one of them. *)
Definition addsSomething (data : list Article) (s : State) : bool :=
  let '(ls, s0) := allocate data s in
  match List.filter (λ newArt, negb (sourceListed s0 newArt)) ls with
  | [] => false
  | _ => true
  end.

(** The event ends with [saveState]. *)
Definition writes (op : Op) (s : State) : bool :=
  match op with
  | OpAddArticle _ | OpRemove _ | OpSummarizeSettled _ _ => true
  | OpAddArticles data => addsSomething data s
  | OpSummarize _ => false
  end.

(** The event is a summarize invocation that passes the guard: it sets
    the flag of the article found and issues a call. *)
Definition startsCall (op : Op) (s : State) : bool :=
  match op with
  | OpSummarize articleId =>
      match find_by_id (heap s) articleId (articles s) with
      | Some (_, article) => negb (truthy_bool (isSummarizing article))
      | None => false
      end
  | _ => false
  end.

(** Whether, at the end of the run, a summarize invocation has started a
    call since the last write ([unsaved] tells it for the start). *)
Fixpoint flagUnsaved (v : Variant) (ops : list Op) (s : State) (unsaved : bool) : bool :=
  match ops with
  | [] => unsaved
  | op :: rest =>
      match exec v op s with
      | Some s' =>
          flagUnsaved v rest s'
            (if writes op s then false
             else if startsCall op s then true else unsaved)
      | None => unsaved
      end
  end.

(** The articles of a list that are flagged. *)
Definition countSummarizing (arts : list Article) : nat :=
  length (List.filter (λ a, truthy_bool (isSummarizing a)) arts).

(** [b] is [a], or [a] with its flag raised since. *)
Definition lagsBehind (a b : Article) : Prop :=
  a = b ∨ (isSummarizing a ≠ Some true ∧ b = set_isSummarizing (Some true) a).

(** The stored snapshot against the list: it is the serialization of a
    list that lags behind the current one in raised flags at most, and
    equals it unless a flag is unsaved, in which case fewer articles are
    flagged in it and a call is outstanding. *)
Definition SnapshotLags (s : State) (unsaved : bool) : Prop :=
  ∃ snap, localStorage s !! articlesKey = Some (stringify_articles snap)
          ∧ Forall2 lagsBehind snap (articleObjects s)
          ∧ if unsaved
            then countSummarizing snap < countSummarizing (articleObjects s)
                 ∧ summarizing s ≠ []
            else snap = articleObjects s.

(** ** Basic facts *)

Lemma keys_distinct : articlesKey ≠ settingsKey.
Proof. discriminate. Qed.

Lemma saveState_articles_lookup (s : State) :
  localStorage (saveState s) !! articlesKey
  = Some (stringify_articles (articleObjects s)).
Proof.
  unfold saveState; simpl.
  destruct (backendSettings s); simpl.
  - rewrite lookup_insert_ne by (symmetry; apply keys_distinct).
    apply lookup_insert_eq.
  - apply lookup_insert_eq.
Qed.

Lemma saveState_NoDrift (s : State) : NoDrift (saveState s).
Proof. unfold NoDrift. by rewrite saveState_articles_lookup. Qed.

Lemma find_by_id_Some (h : list Article) (i : string) (ls : list loc) l a :
  find_by_id h i ls = Some (l, a) →
  h !! l = Some a ∧ id a = i ∧ l ∈ ls.
Proof.
  induction ls as [|x rest IH]; simpl; [done|].
  destruct (h !! x) as [b|] eqn:Hx.
  - destruct (decide (id b = i)) as [Hid|Hid].
    + intros [= <- <-]. split_and!; [done..|]. apply list_elem_of_here.
    + intros H. destruct (IH H) as (? & ? & ?).
      split_and!; [done..|]. by apply list_elem_of_further.
  - intros H. destruct (IH H) as (? & ? & ?).
    split_and!; [done..|]. by apply list_elem_of_further.
Qed.

Lemma find_by_id_None (h : list Article) (i : string) (ls : list loc) :
  find_by_id h i ls = None ↔
  ∀ l a, l ∈ ls → h !! l = Some a → id a ≠ i.
Proof.
  induction ls as [|x rest IH]; simpl.
  - split; [|done]. intros _ l a Hl. by apply elem_of_nil in Hl.
  - destruct (h !! x) as [b|] eqn:Hx.
    + destruct (decide (id b = i)) as [Hid|Hid].
      * split; [done|]. intros H. exfalso.
        by apply (H x b); [apply list_elem_of_here|..].
      * rewrite IH. split.
        -- intros H l a [->|Hl]%elem_of_cons Hl'; [congruence|by eapply H].
        -- intros H l a Hl. apply H. by apply list_elem_of_further.
    + rewrite IH. split.
      * intros H l a [->|Hl]%elem_of_cons Hl'; [congruence|by eapply H].
      * intros H l a Hl. apply H. by apply list_elem_of_further.
Qed.

(** Writing to the object found, without touching its id, does not change
    which reference [find] returns. *)
Lemma find_by_id_insert (h : list Article) (i : string) (ls : list loc) l a a' :
  find_by_id h i ls = Some (l, a) →
  id a' = id a →
  find_by_id (<[l := a']> h) i ls = Some (l, a').
Proof.
  intros Hfind Hid.
  induction ls as [|x rest IH]; simpl in *; [done|].
  destruct (h !! x) as [b|] eqn:Hx.
  - destruct (decide (id b = i)) as [Hb|Hb].
    + injection Hfind as <- <-.
      rewrite list_lookup_insert_eq by (by eapply lookup_lt_Some).
      rewrite decide_True by congruence. done.
    + destruct (find_by_id_Some _ _ _ _ _ Hfind) as (Hl & Hla & _).
      assert (l ≠ x) by (intros ->; congruence).
      rewrite list_lookup_insert_ne by done. rewrite Hx.
      rewrite decide_False by done. by apply IH.
  - destruct (find_by_id_Some _ _ _ _ _ Hfind) as (Hl & Hla & _).
    assert (l ≠ x) by (intros ->; congruence).
    rewrite list_lookup_insert_ne by done. rewrite Hx. by apply IH.
Qed.

Lemma truthy_bool_true (v : option bool) : truthy_bool v = true ↔ v = Some true.
Proof. destruct v as [[]|]; simpl; split; congruence. Qed.

Lemma handleSummarize_guarded v s articleId l a :
  find_by_id (heap s) articleId (articles s) = Some (l, a) →
  isSummarizing a = Some true →
  handleSummarize v articleId s = s.
Proof. intros Hf Ha. unfold handleSummarize. by rewrite Hf, Ha. Qed.

Lemma handleSummarize_starts v s articleId l a :
  find_by_id (heap s) articleId (articles s) = Some (l, a) →
  isSummarizing a ≠ Some true →
  handleSummarize v articleId s
  = mkState (<[l := set_isSummarizing (Some true) a]> (heap s)) (articles s)
      (backendSettings s) (localStorage s) (settingsModalOpen s)
      (addUrlBtnDisabled s) (alerts s)
      (generateCalls s ++ [mkGenerateContentRequest summarizeModel (summarizePrompt v a)])
      (fetchCalls s) (summarizing s ++ [l]).
Proof.
  intros Hf Ha. unfold handleSummarize. rewrite Hf.
  destruct (truthy_bool (isSummarizing a)) eqn:Ht.
  - by apply truthy_bool_true in Ht.
  - done.
Qed.

(** ** Re-entry guard of summarize *)

(** C2. When [handleSummarize] is invoked for an id whose article already
    has [isSummarizing] true, it returns the state as it found it: no
    outbound call, no change.  Hence two invocations in a row on an article
    that was not being summarized issue exactly one [generateContent] call,
    the second invocation leaving the state of the first untouched. *)
Theorem C2_summarize_reentry_guard (v : Variant) (s : State)
    (articleId : string) (l : loc) (a : Article) :
  find_by_id (heap s) articleId (articles s) = Some (l, a) →
  (isSummarizing a = Some true → handleSummarize v articleId s = s)
  ∧ (isSummarizing a ≠ Some true →
     let s1 := handleSummarize v articleId s in
     let s2 := handleSummarize v articleId s1 in
     s2 = s1
     ∧ generateCalls s2
       = generateCalls s
         ++ [mkGenerateContentRequest summarizeModel (summarizePrompt v a)]
     ∧ summarizing s2 = summarizing s ++ [l]).
Proof.
  intros Hfind. split.
  - intros Hflag. by eapply handleSummarize_guarded.
  - intros Hflag. simpl.
    rewrite (handleSummarize_starts v s articleId l a Hfind Hflag).
    match goal with |- handleSummarize v articleId ?s1 = _ ∧ _ =>
      assert (handleSummarize v articleId s1 = s1) as ->
    end; [|done].
    eapply handleSummarize_guarded; simpl.
    + eapply find_by_id_insert; [exact Hfind|reflexivity].
    + done.
Qed.

Lemma C2_witness :
  find_by_id (heap sampleState) "art-1700000000000-0" (articles sampleState)
  = Some (0, sampleA)
  ∧ ((isSummarizing sampleA = Some true →
      handleSummarize MultiArticle "art-1700000000000-0" sampleState = sampleState)
     ∧ (isSummarizing sampleA ≠ Some true →
        let s1 := handleSummarize MultiArticle "art-1700000000000-0" sampleState in
        let s2 := handleSummarize MultiArticle "art-1700000000000-0" s1 in
        s2 = s1
        ∧ generateCalls s2
          = generateCalls sampleState
            ++ [mkGenerateContentRequest summarizeModel
                  (summarizePrompt MultiArticle sampleA)]
        ∧ summarizing s2 = summarizing sampleState ++ [0])).
Proof.
  split; [reflexivity|].
  apply (C2_summarize_reentry_guard MultiArticle sampleState
           "art-1700000000000-0" 0 sampleA).
  reflexivity.
Defined.

(** ** Removal *)

Lemma filter_all_true {A} (f : A → bool) (l : list A) :
  (∀ x, x ∈ l → f x = true) → List.filter f l = l.
Proof.
  induction l as [|x l IH]; simpl; [done|]. intros H.
  rewrite (H x) by apply list_elem_of_here.
  f_equal. apply IH. intros y Hy. apply H. by apply list_elem_of_further.
Qed.

(** C6. Removing an id that no article of the list carries leaves the
    list (its references, hence its length, and the objects behind them)
    as it was, and still rewrites the snapshot, which is then the
    serialization of that unchanged list.  It is silent: no notice is
    shown, no summarization or fetch call goes out, no outstanding call,
    setting, modal or button changes; the whole effect is that of
    [saveState]. *)
Theorem C6_remove_absent_id (s : State) (articleId : string) :
  (∀ l a, l ∈ articles s → heap s !! l = Some a → id a ≠ articleId) →
  let s' := removeArticle articleId s in
  articles s' = articles s
  ∧ heap s' = heap s
  ∧ length (articleObjects s') = length (articleObjects s)
  ∧ articleObjects s' = articleObjects s
  ∧ localStorage s' !! articlesKey = Some (stringify_articles (articleObjects s))
  ∧ alerts s' = alerts s
  ∧ generateCalls s' = generateCalls s
  ∧ fetchCalls s' = fetchCalls s
  ∧ summarizing s' = summarizing s
  ∧ backendSettings s' = backendSettings s
  ∧ settingsModalOpen s' = settingsModalOpen s
  ∧ addUrlBtnDisabled s' = addUrlBtnDisabled s
  ∧ s' = saveState s.
Proof.
  intros Habsent. cbv zeta.
  assert (articles (removeArticle articleId s) = articles s) as Harts.
  { unfold removeArticle; simpl. apply filter_all_true.
    intros l Hl. destruct (heap s !! l) as [a|] eqn:Ha; [|done].
    apply bool_decide_eq_true. by eapply Habsent. }
  assert (articleObjects (removeArticle articleId s) = articleObjects s) as Hobjs.
  { unfold articleObjects. by rewrite Harts. }
  split_and!; try done.
  - by rewrite Hobjs.
  - rewrite <- Hobjs. unfold removeArticle; cbv zeta.
    by rewrite saveState_articles_lookup.
  - unfold removeArticle; cbv zeta. f_equal.
    transitivity (set_articles (articles s) s); [|by destruct s].
    f_equal. exact Harts.
Qed.

Lemma C6_witness :
  (∀ l a, l ∈ articles sampleState → heap sampleState !! l = Some a → id a ≠ "nope")
  ∧ let s' := removeArticle "nope" sampleState in
    articles s' = articles sampleState
    ∧ heap s' = heap sampleState
    ∧ length (articleObjects s') = length (articleObjects sampleState)
    ∧ articleObjects s' = articleObjects sampleState
    ∧ localStorage s' !! articlesKey
      = Some (stringify_articles (articleObjects sampleState))
    ∧ alerts s' = alerts sampleState
    ∧ generateCalls s' = generateCalls sampleState
    ∧ fetchCalls s' = fetchCalls sampleState
    ∧ summarizing s' = summarizing sampleState
    ∧ backendSettings s' = backendSettings sampleState
    ∧ settingsModalOpen s' = settingsModalOpen sampleState
    ∧ addUrlBtnDisabled s' = addUrlBtnDisabled sampleState
    ∧ s' = saveState sampleState.
Proof.
  assert (∀ l a, l ∈ articles sampleState → heap sampleState !! l = Some a
                 → id a ≠ "nope") as H.
  { intros l a Hl. simpl in Hl.
    apply elem_of_cons in Hl as [->|Hl];
      [|apply elem_of_cons in Hl as [->|Hl]; [|by apply elem_of_nil in Hl]];
      simpl; intros [= <-]; discriminate. }
  split; [exact H|].
  exact (C6_remove_absent_id sampleState "nope" H).
Defined.

(** ** Adding articles *)

Lemma sourceListed_spec (s : State) (l : loc) :
  sourceListed s l = true ↔
  ∃ e a b, e ∈ articles s ∧ heap s !! e = Some a ∧ heap s !! l = Some b
           ∧ source a = source b.
Proof.
  unfold sourceListed. rewrite existsb_exists. split.
  - intros (e & He & Hs). unfold sameSource in Hs.
    destruct (heap s !! e) as [a|] eqn:Ha; [|done].
    destruct (heap s !! l) as [b|] eqn:Hb; [|done].
    apply bool_decide_eq_true in Hs.
    exists e, a, b. by rewrite <- list_elem_of_In in He.
  - intros (e & a & b & He & Ha & Hb & Hs).
    exists e. split; [by apply list_elem_of_In|].
    unfold sameSource. rewrite Ha, Hb. by apply bool_decide_eq_true.
Qed.

Lemma addArticles_articles (newArticles : list loc) (s : State) :
  articles (addArticles newArticles s)
  = List.filter (λ newArt, negb (sourceListed s newArt)) newArticles ++ articles s.
Proof.
  unfold addArticles.
  destruct (List.filter _ newArticles); reflexivity.
Qed.

Lemma addArticles_heap (newArticles : list loc) (s : State) :
  heap (addArticles newArticles s) = heap s.
Proof.
  unfold addArticles.
  destruct (List.filter _ newArticles); reflexivity.
Qed.

Lemma addArticles_nothing_new (newArticles : list loc) (s : State) :
  (∀ l, l ∈ newArticles → sourceListed s l = true) →
  addArticles newArticles s = alert noNewArticlesMsg s.
Proof.
  intros H. unfold addArticles.
  assert (List.filter (λ newArt, negb (sourceListed s newArt)) newArticles = []) as ->;
    [|done].
  induction newArticles as [|x rest IH]; simpl; [done|].
  rewrite (H x) by apply list_elem_of_here. simpl.
  apply IH. intros l Hl. apply H. by apply list_elem_of_further.
Qed.

(** C4. [addArticles] adds exactly those incoming articles whose source
    is the source of no article already in the list, so an incoming
    article that shares its source with a listed one is not added; and
    when every incoming article is filtered out this way, the list, the
    objects and the stored state are as before and the only effect is the
    notice that no new articles were found. *)
Theorem C4_addArticles_filters_known_sources (s : State) (newArticles : list loc) :
  let listed (l : loc) :=
    ∃ e a b, e ∈ articles s ∧ heap s !! e = Some a ∧ heap s !! l = Some b
             ∧ source a = source b in
  let s' := addArticles newArticles s in
  (∃ added, articles s' = added ++ articles s
            ∧ ∀ l, l ∈ added ↔ l ∈ newArticles ∧ ¬ listed l)
  ∧ ((∀ l, l ∈ newArticles → listed l) →
     articles s' = articles s
     ∧ heap s' = heap s
     ∧ localStorage s' = localStorage s
     ∧ alerts s' = alerts s ++ [noNewArticlesMsg]).
Proof.
  cbv zeta. split.
  - eexists. split; [apply addArticles_articles|].
    intros l. rewrite list_elem_of_In, filter_In, <- list_elem_of_In.
    rewrite negb_true_iff, <- not_true_iff_false, sourceListed_spec. done.
  - intros H. rewrite addArticles_nothing_new; [done|].
    intros l Hl. apply sourceListed_spec. by apply H.
Qed.

Lemma C4_witness :
  let s := sampleDupBatchState in
  let s' := addArticles [2; 3] s in
  articles s' = articles s
  ∧ heap s' = heap s
  ∧ localStorage s' = localStorage s
  ∧ alerts s' = alerts s ++ [noNewArticlesMsg].
Proof.
  cbv zeta.
  destruct (C4_addArticles_filters_known_sources sampleDupBatchState [2; 3])
    as [_ H].
  apply H. intros l Hl. apply sourceListed_spec.
  apply elem_of_cons in Hl as [->|Hl];
    [|apply elem_of_cons in Hl as [->|Hl]; [|by apply elem_of_nil in Hl]];
    reflexivity.
Defined.

(** C10. Incoming articles are compared with the list as it was before
    the call only: two distinct members of a batch that share a source no
    listed article has are both added. *)
Theorem C10_no_dedup_within_batch (s : State) (newArticles : list loc)
    (x y : loc) (a b : Article) :
  x ≠ y → x ∈ newArticles → y ∈ newArticles →
  heap s !! x = Some a → heap s !! y = Some b →
  source a = source b →
  (∀ e c, e ∈ articles s → heap s !! e = Some c → source c ≠ source a) →
  ∃ added, articles (addArticles newArticles s) = added ++ articles s
           ∧ x ∈ added ∧ y ∈ added.
Proof.
  intros Hxy Hx Hy Ha Hb Hab Hfresh.
  eexists. split; [apply addArticles_articles|].
  assert (∀ z c, heap s !! z = Some c → source c = source a →
                 sourceListed s z = false) as Hnot.
  { intros z c Hz Hc. apply not_true_iff_false.
    rewrite sourceListed_spec. intros (e & a' & b' & He & Ha' & Hb' & Hs).
    apply (Hfresh e a' He Ha'). congruence. }
  split; apply list_elem_of_In, filter_In; (split; [by apply list_elem_of_In|]).
  - by rewrite (Hnot x a).
  - by rewrite (Hnot y b).
Qed.

Lemma C10_witness :
  let s := sampleNewBatchState in
  ∃ added, articles (addArticles [2; 3] s) = added ++ articles s
           ∧ 2 ∈ added ∧ 3 ∈ added.
Proof.
  cbv zeta.
  apply (C10_no_dedup_within_batch sampleNewBatchState [2; 3] 2 3
           sampleNew1 sampleNew2).
  - discriminate.
  - apply list_elem_of_here.
  - apply list_elem_of_further, list_elem_of_here.
  - reflexivity.
  - reflexivity.
  - reflexivity.
  - intros e c He. simpl in He.
    apply elem_of_cons in He as [->|He];
      [|apply elem_of_cons in He as [->|He]; [|by apply elem_of_nil in He]];
      simpl; intros [= <-]; discriminate.
Defined.

(** *** New objects and the objects already listed *)

Lemma omap_lookup_app_old {A} (h objs : list A) (ls : list nat) :
  Forall (λ l, l < length h) ls →
  omap (λ l, (h ++ objs) !! l) ls = omap (λ l, h !! l) ls.
Proof.
  induction 1 as [|l ls Hl _ IH]; simpl; [done|].
  rewrite lookup_app_l by done.
  destruct (h !! l); [f_equal|]; exact IH.
Qed.

Lemma omap_lookup_filter_seq {A} (H : list A) (P : nat → bool) (P' : A → bool)
    (objs : list A) (n : nat) :
  (∀ i a, objs !! i = Some a → H !! (n + i) = Some a ∧ P (n + i) = P' a) →
  omap (λ l, H !! l) (List.filter P (seq n (length objs))) = List.filter P' objs.
Proof.
  revert n. induction objs as [|a objs IH]; intros n Hobjs; simpl; [done|].
  destruct (Hobjs 0 a eq_refl) as [Hl HP]. rewrite Nat.add_0_r in Hl, HP.
  assert (omap (λ l, H !! l) (List.filter P (seq (S n) (length objs)))
          = List.filter P' objs) as Hrest.
  { apply IH. intros i b Hb. rewrite Nat.add_succ_l, <- Nat.add_succ_r.
    by apply Hobjs. }
  rewrite HP. destruct (P' a); simpl; [rewrite Hl; f_equal|]; exact Hrest.
Qed.

Lemma existsb_omap_lookup {A} (h : list A) (f : A → bool) (ls : list nat) :
  existsb (λ l, match h !! l with Some a => f a | None => false end) ls
  = existsb f (omap (λ l, h !! l) ls).
Proof.
  induction ls as [|l ls IH]; simpl; [done|].
  destruct (h !! l); simpl; [f_equal|]; exact IH.
Qed.

(** On a freshly built object, the test of [addArticles] only reads the
    sources of the listed objects. *)
Lemma sourceListed_allocated (s : State) (objs : list Article) (i : nat) (b : Article) :
  wf s → objs !! i = Some b →
  sourceListed (allocate objs s).2 (length (heap s) + i)
  = sourceKnown (articleObjects s) b.
Proof.
  intros [Hwf _] Hb. unfold sourceListed, sourceKnown, articleObjects; simpl.
  rewrite <- existsb_omap_lookup.
  induction Hwf as [|e ls He _ IH]; simpl; [done|].
  rewrite IH. f_equal. unfold sameSource.
  rewrite lookup_app_l by done.
  rewrite lookup_app_r by lia.
  replace (length (heap s) + i - length (heap s)) with i by lia.
  rewrite Hb. by destruct (heap s !! e).
Qed.

Lemma exec_OpAddArticles_objects (v : Variant) (data : list Article) (s s' : State) :
  wf s → exec v (OpAddArticles data) s = Some s' →
  articleObjects s'
  = List.filter (λ a, negb (sourceKnown (articleObjects s) a)) data
    ++ articleObjects s.
Proof.
  intros Hwf [= <-]. unfold articleObjects at 1.
  rewrite addArticles_articles, addArticles_heap. simpl.
  rewrite omap_app. f_equal.
  - apply omap_lookup_filter_seq. intros i a Ha. split.
    + rewrite lookup_app_r by lia.
      by replace (length (heap s) + i - length (heap s)) with i by lia.
    + f_equal. by apply (sourceListed_allocated s data i a).
  - apply omap_lookup_app_old, Hwf.
Qed.

Lemma exec_OpAddArticle_objects (v : Variant) (a : Article) (s s' : State) :
  wf s → exec v (OpAddArticle a) s = Some s' →
  articleObjects s' = a :: articleObjects s.
Proof.
  intros Hwf [= <-]. unfold articleObjects; simpl.
  rewrite lookup_app_r by lia. rewrite Nat.sub_diag; simpl.
  f_equal. apply (omap_lookup_app_old (heap s) [a] (articles s)), Hwf.
Qed.

(** C9. Every add prepends.  In the multi-article listing the objects of
    the batch that pass the source filter come first, in the order of the
    batch, followed by the objects listed before, in their order and
    unchanged; in the single-article listing the new object is the head
    and the former list is the tail.  (When the filter keeps nothing the
    list is the former list.) *)
Theorem C9_add_prepends (v : Variant) (s s' : State) :
  wf s →
  (∀ data, exec v (OpAddArticles data) s = Some s' →
     ∃ addedRefs added,
       articles s' = addedRefs ++ articles s
       ∧ articleObjects s' = added ++ articleObjects s
       ∧ added = List.filter (λ a, negb (sourceKnown (articleObjects s) a)) data)
  ∧ (∀ a, exec v (OpAddArticle a) s = Some s' →
       ∃ l, articles s' = l :: articles s
            ∧ articleObjects s' = a :: articleObjects s).
Proof.
  intros Hwf. split.
  - intros data Hexec. eexists _, _. split_and!; [|by eapply exec_OpAddArticles_objects|done].
    injection Hexec as <-. exact (addArticles_articles _ _).
  - intros a Hexec. eexists. split; [|by eapply exec_OpAddArticle_objects].
    by injection Hexec as <-.
Qed.

Lemma C9_witness :
  wf sampleState
  ∧ ∃ s', exec MultiArticle (OpAddArticles [sampleDup1; sampleNew1]) sampleState = Some s'
          ∧ articleObjects s' = [sampleNew1; sampleA; sampleB].
Proof.
  assert (wf sampleState) as Hwf.
  { split; simpl; repeat constructor. }
  split; [exact Hwf|].
  pose (s' := addArticles (allocate [sampleDup1; sampleNew1] sampleState).1
                (allocate [sampleDup1; sampleNew1] sampleState).2).
  exists s'. split; [reflexivity|].
  destruct (C9_add_prepends MultiArticle sampleState s' Hwf) as [H _].
  destruct (H [sampleDup1; sampleNew1] eq_refl) as (refs & added & _ & Hobjs & ->).
  exact Hobjs.
Defined.

(** ** URL ingestion without settings *)

Lemma truthy_string_false (v : option string) :
  truthy_string v = false ↔ v = None ∨ v = Some "".
Proof.
  destruct v as [[|c r]|]; simpl; split; try done; auto.
  - intros [?|?]; congruence.
Qed.

Lemma settingsMissing_spec (b : option BackendSettings) :
  settingsMissing b = true ↔
  b = None ∨ ∃ x, b = Some x ∧ (url x = "" ∨ key x = "").
Proof.
  unfold settingsMissing.
  rewrite orb_true_iff, !negb_true_iff, !truthy_string_false.
  destruct b as [x|]; simpl; split.
  - intros [[?|[= ?]]|[?|[= ?]]]; try done; right; exists x; auto.
  - intros [?|(y & [= <-] & [->| ->])]; [done|auto..].
  - auto.
  - auto.
Qed.

(** C7. While the backend settings are unset or incomplete (no settings
    object, or an empty url, or an empty key), a URL ingestion attempt
    performs no network call, notifies the user, opens the settings modal
    and leaves the article list, the objects and the stored state as they
    were.  This holds for the fetch function of either listing. *)
Theorem C7_fetch_blocked_without_settings
    (URL_error : string → option string) (URL_opaquePath : string → bool)
    (u : string) (s s' : State) :
  (backendSettings s = None
   ∨ ∃ b, backendSettings s = Some b ∧ (url b = "" ∨ key b = "")) →
  (s' = fetchArticlesFromSource URL_error URL_opaquePath u s
   ∨ s' = fetchArticleFromBackend URL_error URL_opaquePath u s) →
  fetchCalls s' = fetchCalls s
  ∧ generateCalls s' = generateCalls s
  ∧ alerts s' = alerts s ++ [notConfiguredMsg]
  ∧ settingsModalOpen s' = true
  ∧ articles s' = articles s
  ∧ heap s' = heap s
  ∧ localStorage s' = localStorage s
  ∧ backendSettings s' = backendSettings s.
Proof.
  intros Hmissing%settingsMissing_spec [-> | ->];
    unfold fetchArticlesFromSource, fetchArticleFromBackend;
    rewrite Hmissing; done.
Qed.

Lemma C7_witness :
  let s := set_backendSettings (Some (mkBackendSettings "https://backend.example:5000" ""))
             sampleState in
  let s' := fetchArticlesFromSource (λ _, None) (λ _, false)
              "https://news.example/feed" s in
  fetchCalls s' = fetchCalls s
  ∧ generateCalls s' = generateCalls s
  ∧ alerts s' = alerts s ++ [notConfiguredMsg]
  ∧ settingsModalOpen s' = true
  ∧ articles s' = articles s
  ∧ heap s' = heap s
  ∧ localStorage s' = localStorage s
  ∧ backendSettings s' = backendSettings s.
Proof.
  cbv zeta.
  apply (C7_fetch_blocked_without_settings (λ _, None) (λ _, false)
           "https://news.example/feed").
  - right. eexists. split; [reflexivity|]. right. reflexivity.
  - left. reflexivity.
Defined.

(** ** Trimming *)

Lemma trimStart_spec (s : string) :
  ∃ pre, s = pre +:+ trimStart s
         ∧ allWhiteSpace pre = true
         ∧ startsWithWhiteSpace (trimStart s) = false.
Proof.
  induction s as [|c r (pre & Hr & Hpre & Hstart)]; simpl.
  - by exists "".
  - destruct (isWhiteSpace c) eqn:Hc.
    + exists (String c pre). split_and!; [|by simpl; rewrite Hc|done].
      exact (f_equal (String c) Hr).
    + exists "". simpl. by rewrite Hc.
Qed.

Lemma trimEnd_spec (s : string) :
  ∃ post, s = trimEnd s +:+ post
          ∧ allWhiteSpace post = true
          ∧ endsWithWhiteSpace (trimEnd s) = false.
Proof.
  induction s as [|c r (post & Hr & Hpost & Hend)]; simpl.
  - by exists "".
  - destruct (trimEnd r) as [|c' r'] eqn:Ht.
    + change (r = post) in Hr. subst post.
      destruct (isWhiteSpace c) eqn:Hc.
      * exists (String c r). split_and!; [done| |done]. simpl. by rewrite Hc.
      * exists r. split_and!; [done|done|]. simpl. by rewrite Hc.
    + exists post. split_and!; [|done|done].
      exact (f_equal (String c) Hr).
Qed.

Lemma trimEnd_start (s : string) :
  startsWithWhiteSpace s = false → startsWithWhiteSpace (trimEnd s) = false.
Proof.
  destruct s as [|c r]; simpl; [done|]. intros Hc.
  destruct (trimEnd r); simpl; [by rewrite Hc|done].
Qed.

(** [trim] removes a run of white space at each end and nothing else, and
    what is left neither starts nor ends with white space. *)
Lemma trim_spec (s : string) :
  ∃ pre post, s = pre +:+ trim s +:+ post
              ∧ allWhiteSpace pre = true ∧ allWhiteSpace post = true
              ∧ startsWithWhiteSpace (trim s) = false
              ∧ endsWithWhiteSpace (trim s) = false.
Proof.
  destruct (trimStart_spec s) as (pre & Hs & Hpre & Hstart).
  destruct (trimEnd_spec (trimStart s)) as (post & Ht & Hpost & Hend).
  exists pre, post. unfold trim. split_and!; try done.
  - by rewrite <- Ht.
  - by apply trimEnd_start.
Qed.

(** ** The summarization request and its result *)

Lemma handleSummarize_resume_heap (l : loc) (r : Settled) (s : State) :
  heap (handleSummarize_resume l r s) !! l
  = (λ a, set_isSummarizing (Some false)
            match r with
            | Fulfilled (Some text) => set_summary (Some (trim text)) a
            | _ => a
            end) <$> heap s !! l.
Proof.
  unfold handleSummarize_resume; simpl.
  rewrite list_lookup_alter_eq.
  destruct r as [[text|]|]; simpl; [rewrite list_lookup_alter_eq|..];
    by destruct (heap s !! l).
Qed.

Lemma handleSummarize_resume_heap_ne (l l' : loc) (r : Settled) (s : State) :
  l ≠ l' →
  heap (handleSummarize_resume l r s) !! l' = heap s !! l'.
Proof.
  intros Hne. unfold handleSummarize_resume; simpl.
  rewrite list_lookup_alter_ne by done.
  destruct r as [[text|]|]; simpl; [by rewrite list_lookup_alter_ne|done..].
Qed.

(** C5, as the code has it.  The request of [handleSummarize] carries the
    model identifier "gemini-2.5-flash" and a prompt built from the title
    and the content of the article; in the listing of src/README.md the
    prompt is the specified one, in src/index.tsx it reads "web article"
    where the specified one reads "article".  When the call is fulfilled
    with a text, the summary of the article becomes that text trimmed. *)
Theorem C5_summarize_request_and_summary (v : Variant) (s : State)
    (articleId : string) (l : loc) (a : Article) :
  find_by_id (heap s) articleId (articles s) = Some (l, a) →
  isSummarizing a ≠ Some true →
  let s1 := handleSummarize v articleId s in
  let opening :=
    match v with
    | SingleArticle => "Summarize the following article in a concise paragraph:"
    | MultiArticle => "Summarize the following web article in a concise paragraph:"
    end in
  generateCalls s1
  = generateCalls s
    ++ [mkGenerateContentRequest "gemini-2.5-flash"
          (opening +:+ LF +:+ LF +:+ "---" +:+ LF +:+ LF +:+ "Title: "
           +:+ title a +:+ LF +:+ LF +:+ content a)]
  ∧ (v = SingleArticle →
     generateCalls s1
     = generateCalls s
       ++ [mkGenerateContentRequest "gemini-2.5-flash"
             (specifiedPrompt (title a) (content a))])
  ∧ ∀ text,
      heap (handleSummarize_resume l (Fulfilled (Some text)) s1) !! l
      = Some (mkArticle (id a) (title a) (content a) (source a)
                (Some (trim text)) (Some false)).
Proof.
  intros Hfind Hflag. cbv zeta.
  rewrite (handleSummarize_starts v s articleId l a Hfind Hflag).
  destruct (find_by_id_Some _ _ _ _ _ Hfind) as (Hl & _ & _).
  split_and!.
  - by destruct v.
  - by intros ->.
  - intros text. rewrite handleSummarize_resume_heap; simpl.
    by rewrite list_lookup_insert_eq by (by eapply lookup_lt_Some).
Qed.

Lemma C5_witness :
  find_by_id (heap sampleState) "art-1700000000000-0" (articles sampleState)
  = Some (0, sampleA)
  ∧ ∀ text,
      heap (handleSummarize_resume 0 (Fulfilled (Some text))
              (handleSummarize SingleArticle "art-1700000000000-0" sampleState)) !! 0
      = Some (mkArticle "art-1700000000000-0" "Alpha" "First body"
                "https://news.example/a" (Some (trim text)) (Some false)).
Proof.
  split; [reflexivity|].
  apply (C5_summarize_request_and_summary SingleArticle sampleState
           "art-1700000000000-0" 0 sampleA); [reflexivity|discriminate].
Defined.

(** In src/index.tsx the prompt is not the specified one. *)
Lemma C5_counterexample :
  ∃ req,
    generateCalls (handleSummarize MultiArticle "art-1700000000000-0" sampleState) = [req]
    ∧ model req = "gemini-2.5-flash"
    ∧ contents req ≠ specifiedPrompt (title sampleA) (content sampleA).
Proof.
  eexists. split; [reflexivity|]. split; [reflexivity|]. discriminate.
Qed.

(** ** A summarization call from invocation to completion *)

Lemma addArticles_summarizing (newArticles : list loc) (s : State) :
  summarizing (addArticles newArticles s) = summarizing s.
Proof.
  unfold addArticles.
  destruct (List.filter _ newArticles); reflexivity.
Qed.

Lemma elem_of_remove_one_ne (l l' : loc) (ls : list loc) :
  l ≠ l' → l ∈ ls → l ∈ remove_one l' ls.
Proof.
  intros Hne. induction ls as [|x ls IH]; simpl; [done|].
  intros [->|Hl]%elem_of_cons.
  - rewrite decide_False by done. apply list_elem_of_here.
  - destruct (decide (x = l')); [done|]. by apply list_elem_of_further, IH.
Qed.

Lemma exec_awaiting (v : Variant) (op : Op) (l : loc) (a : Article) (s s' : State) :
  awaiting l a s → settlesCall l op = false →
  exec v op s = Some s' → awaiting l a s'.
Proof.
  intros [Hl Hin] Hop Hexec.
  assert (l < length (heap s)) as Hlt by (by eapply lookup_lt_Some).
  destruct op as [data|b|i|i|l' r]; simpl in Hexec.
  - injection Hexec as <-. split.
    + rewrite addArticles_heap; simpl. by rewrite lookup_app_l.
    + by rewrite addArticles_summarizing.
  - injection Hexec as <-. split; simpl; [by rewrite lookup_app_l|done].
  - injection Hexec as <-. by split.
  - injection Hexec as <-. unfold handleSummarize.
    destruct (find_by_id (heap s) i (articles s)) as [[l' a']|] eqn:Hf; [|by split].
    destruct (truthy_bool (isSummarizing a')) eqn:Ht; [by split|].
    destruct (find_by_id_Some _ _ _ _ _ Hf) as (Hl' & _ & _).
    assert (l' ≠ l) as Hne.
    { intros ->. rewrite Hl in Hl'. injection Hl' as <-. done. }
    split; simpl.
    + by rewrite list_lookup_insert_ne.
    + apply elem_of_app. by left.
  - simpl in Hop. apply bool_decide_eq_false in Hop.
    destruct (decide (l' ∈ summarizing s)); [|done].
    injection Hexec as <-. split.
    + by rewrite handleSummarize_resume_heap_ne.
    + unfold handleSummarize_resume; simpl.
      apply elem_of_remove_one_ne; [done|].
      by destruct r as [[?|]|].
Qed.

Lemma run_awaiting (v : Variant) (ops : list Op) (l : loc) (a : Article) (s s' : State) :
  awaiting l a s → Forall (λ op, settlesCall l op = false) ops →
  run v ops s = Some s' → awaiting l a s'.
Proof.
  intros Ha Hops. revert s Ha.
  induction Hops as [|op ops Hop _ IH]; intros s Ha; simpl.
  - by intros [= <-].
  - destruct (exec v op s) as [s1|] eqn:Hexec; [|done]. simpl.
    apply IH. by eapply exec_awaiting.
Qed.

Lemma handleSummarize_awaiting (v : Variant) (s : State) (articleId : string)
    (l : loc) (a : Article) :
  find_by_id (heap s) articleId (articles s) = Some (l, a) →
  isSummarizing a ≠ Some true →
  awaiting l a (handleSummarize v articleId s).
Proof.
  intros Hfind Hflag.
  rewrite (handleSummarize_starts v s articleId l a Hfind Hflag).
  destruct (find_by_id_Some _ _ _ _ _ Hfind) as (Hl & _ & _).
  split; simpl.
  - by rewrite list_lookup_insert_eq by (by eapply lookup_lt_Some).
  - apply elem_of_app. right. apply list_elem_of_here.
Qed.

Lemma handleSummarize_resume_NoDrift (l : loc) (r : Settled) (s : State) :
  NoDrift (handleSummarize_resume l r s).
Proof.
  unfold handleSummarize_resume, NoDrift; cbv zeta.
  match goal with |- context [saveState ?x] =>
    change (localStorage (saveState x) !! articlesKey
            = Some (stringify_articles (articleObjects x)))
  end.
  apply saveState_articles_lookup.
Qed.

Lemma handleSummarize_resume_alerts (l : loc) (r : Settled) (s : State) :
  alerts (handleSummarize_resume l r s)
  = match r with
    | Fulfilled (Some _) => alerts s
    | _ => alerts s ++ [summarizeFailedMsg]
    end.
Proof. by destruct r as [[?|]|]. Qed.

(** C3. A summarization call is issued for an article without a summary;
    whatever adds, removals, other summarizations and completions of other
    calls happen while it is outstanding, its completion is enabled and,
    when the call fails, leaves the summary unset and shows the failure
    notice.  Whether the call fails or succeeds, the completion sets
    [isSummarizing] to false, writes the snapshot of the current list and
    ends the activation. *)
Theorem C3_failed_summarize (v : Variant) (s s2 : State) (articleId : string)
    (l : loc) (a : Article) (ops : list Op) (r : Settled) :
  find_by_id (heap s) articleId (articles s) = Some (l, a) →
  isSummarizing a ≠ Some true →
  summary a = None →
  Forall (λ op, settlesCall l op = false) ops →
  run v ops (handleSummarize v articleId s) = Some s2 →
  ∃ s3 a3,
    exec v (OpSummarizeSettled l r) s2 = Some s3
    ∧ heap s3 !! l = Some a3
    ∧ isSummarizing a3 = Some false
    ∧ NoDrift s3
    ∧ (failed r →
       summary a3 = None ∧ alerts s3 = alerts s2 ++ [summarizeFailedMsg]).
Proof.
  intros Hfind Hflag Hsum Hops Hrun.
  pose proof (handleSummarize_awaiting v s articleId l a Hfind Hflag) as Haw.
  destruct (run_awaiting v ops l a _ s2 Haw Hops Hrun) as [Hl Hin].
  eexists _, _. split_and!.
  - simpl. by rewrite decide_True.
  - rewrite handleSummarize_resume_heap, Hl. reflexivity.
  - done.
  - apply handleSummarize_resume_NoDrift.
  - intros [-> | ->]; by rewrite handleSummarize_resume_alerts.
Qed.

Lemma C3_witness :
  ∃ s2 s3 a3,
    run MultiArticle [OpRemove "art-1700000000000-1"; OpAddArticles [sampleNew1]]
      (handleSummarize MultiArticle "art-1700000000000-0" sampleState) = Some s2
    ∧ exec MultiArticle (OpSummarizeSettled 0 Rejected) s2 = Some s3
    ∧ heap s3 !! 0 = Some a3
    ∧ isSummarizing a3 = Some false
    ∧ NoDrift s3
    ∧ (failed Rejected →
       summary a3 = None ∧ alerts s3 = alerts s2 ++ [summarizeFailedMsg]).
Proof.
  pose (ops := [OpRemove "art-1700000000000-1"; OpAddArticles [sampleNew1]]).
  pose (s1 := handleSummarize MultiArticle "art-1700000000000-0" sampleState).
  pose (s2 := default s1 (run MultiArticle ops s1)).
  assert (run MultiArticle ops s1 = Some s2) as Hrun by reflexivity.
  assert (Forall (λ op, settlesCall 0 op = false) ops) as Hops
    by (repeat constructor).
  assert (isSummarizing sampleA ≠ Some true) as Hflag by discriminate.
  destruct (C3_failed_summarize MultiArticle sampleState s2 "art-1700000000000-0"
              0 sampleA ops Rejected eq_refl Hflag eq_refl Hops Hrun)
    as (s3 & a3 & H).
  exists s2, s3, a3. split; [exact Hrun|exact H].
Defined.

(** ** The snapshot follows the list *)

Lemma NoDrift_SnapshotUpToFlags (s : State) : NoDrift s → SnapshotUpToFlags s.
Proof. intros H. by exists (articleObjects s). Qed.

Lemma handleSummarize_resume_articles (l : loc) (r : Settled) (s : State) :
  articles (handleSummarize_resume l r s) = articles s.
Proof. by destruct r as [[?|]|]. Qed.

Lemma handleSummarize_resume_heap_length (l : loc) (r : Settled) (s : State) :
  length (heap (handleSummarize_resume l r s)) = length (heap s).
Proof.
  unfold handleSummarize_resume; simpl. rewrite length_alter.
  destruct r as [[?|]|]; simpl; by rewrite ?length_alter.
Qed.

Lemma handleSummarize_resume_summarizing (l : loc) (r : Settled) (s : State) :
  summarizing (handleSummarize_resume l r s) = remove_one l (summarizing s).
Proof. by destruct r as [[?|]|]. Qed.

Lemma Forall_remove_one (P : nat → Prop) (l : loc) (ls : list loc) :
  Forall P ls → Forall P (remove_one l ls).
Proof.
  induction 1 as [|x ls Hx Hls IH]; simpl; [done|].
  destruct (decide (x = l)); [done|]. by constructor.
Qed.

Lemma Forall_List_filter {A} (P : A → Prop) (f : A → bool) (ls : list A) :
  Forall P ls → Forall P (List.filter f ls).
Proof.
  induction 1 as [|x ls Hx _ IH]; simpl; [done|].
  destruct (f x); [by constructor|done].
Qed.

Lemma Forall_seq_lt (n k : nat) : Forall (λ l, l < n + k) (seq n k).
Proof.
  apply Forall_forall. intros x Hx%list_elem_of_In%in_seq. lia.
Qed.

Lemma exec_wf (v : Variant) (op : Op) (s s' : State) :
  wf s → exec v op s = Some s' → wf s'.
Proof.
  intros [Ha Hp] Hexec. destruct op as [data|b|i|i|l r]; simpl in Hexec.
  - injection Hexec as <-. unfold wf.
    rewrite addArticles_articles, addArticles_heap, addArticles_summarizing; simpl.
    rewrite length_app. split.
    + apply Forall_app. split.
      * apply Forall_List_filter, Forall_seq_lt.
      * eapply Forall_impl; [exact Ha|]. simpl. lia.
    + eapply Forall_impl; [exact Hp|]. simpl. lia.
  - injection Hexec as <-. unfold wf; simpl. rewrite length_app; simpl. split.
    + constructor; [lia|]. eapply Forall_impl; [exact Ha|]. simpl. lia.
    + eapply Forall_impl; [exact Hp|]. simpl. lia.
  - injection Hexec as <-. split; simpl; [|done]. by apply Forall_List_filter.
  - injection Hexec as <-. unfold handleSummarize.
    destruct (find_by_id (heap s) i (articles s)) as [[l a]|] eqn:Hf; [|by split].
    destruct (truthy_bool (isSummarizing a)); [by split|].
    destruct (find_by_id_Some _ _ _ _ _ Hf) as (Hl%lookup_lt_Some & _ & _).
    split; simpl; rewrite length_insert; [done|].
    apply Forall_app. split; [done|]. by constructor.
  - destruct (decide (l ∈ summarizing s)); [|done]. injection Hexec as <-.
    unfold wf. rewrite handleSummarize_resume_articles,
      handleSummarize_resume_heap_length, handleSummarize_resume_summarizing.
    split; [done|]. by apply Forall_remove_one.
Qed.

(** Setting a flag of one object is invisible once flags are cleared. *)
Lemma clearFlag_objects_insert (h : list Article) (l : loc) (a a' : Article)
    (ls : list loc) :
  h !! l = Some a → clearFlag a' = clearFlag a →
  clearFlag <$> omap (λ x, <[l := a']> h !! x) ls
  = clearFlag <$> omap (λ x, h !! x) ls.
Proof.
  intros Hl Ha. induction ls as [|x ls IH]; simpl; [done|].
  destruct (decide (l = x)) as [<-|Hne].
  - rewrite list_lookup_insert_eq by (by eapply lookup_lt_Some).
    rewrite Hl. rewrite !fmap_cons. f_equal; [done|exact IH].
  - rewrite list_lookup_insert_ne by done.
    destruct (h !! x); [rewrite !fmap_cons; f_equal|]; exact IH.
Qed.

Lemma exec_writes_NoDrift (v : Variant) (op : Op) (s s' : State) :
  writesSnapshot op = true → exec v op s = Some s' → NoDrift s'.
Proof.
  intros Hop Hexec. destruct op as [data|b|i|i|l r]; simpl in *; try done.
  - injection Hexec as <-. apply saveState_NoDrift.
  - injection Hexec as <-. apply saveState_NoDrift.
  - destruct (decide (l ∈ summarizing s)); [|done]. injection Hexec as <-.
    apply handleSummarize_resume_NoDrift.
Qed.

(** One event keeps the snapshot and the list together: up to flags in
    any case, exactly when nothing is outstanding afterwards. *)
Lemma exec_snapshot (v : Variant) (op : Op) (s s' : State) :
  wf s →
  SnapshotUpToFlags s → (summarizing s = [] → NoDrift s) →
  exec v op s = Some s' →
  SnapshotUpToFlags s' ∧ (summarizing s' = [] → NoDrift s').
Proof.
  intros Hwf Hup Hex Hexec.
  destruct (writesSnapshot op) eqn:Hw.
  { pose proof (exec_writes_NoDrift v op s s' Hw Hexec) as Hnd.
    split; [by apply NoDrift_SnapshotUpToFlags|done]. }
  destruct op as [data|b|i|i|l r]; simpl in *; try done.
  - injection Hexec as <-. unfold addArticles.
    destruct (List.filter _ _) eqn:Hfilter.
    + assert (articleObjects (alert noNewArticlesMsg (set_heap (heap s ++ data) s))
              = articleObjects s) as Hobjs.
      { unfold articleObjects; simpl. apply omap_lookup_app_old, Hwf. }
      split.
      * destruct Hup as (snap & Hs & Hc). exists snap. by rewrite Hobjs.
      * unfold NoDrift. rewrite Hobjs. exact Hex.
    + split; [apply NoDrift_SnapshotUpToFlags|intros _]; apply saveState_NoDrift.
  - injection Hexec as <-. unfold handleSummarize.
    destruct (find_by_id (heap s) i (articles s)) as [[l a]|] eqn:Hf; [|done].
    destruct (truthy_bool (isSummarizing a)); [done|].
    destruct (find_by_id_Some _ _ _ _ _ Hf) as (Hl & _ & _).
    split.
    + destruct Hup as (snap & Hs & Hc). exists snap. split; [done|].
      rewrite Hc. symmetry. unfold articleObjects; simpl.
      by eapply clearFlag_objects_insert.
    + simpl. intros Hnil. by apply app_nil in Hnil as [_ ?].
Qed.

Lemma run_app (v : Variant) (ops1 ops2 : list Op) (s : State) :
  run v (ops1 ++ ops2) s = s1 ← run v ops1 s; run v ops2 s1.
Proof.
  revert s. induction ops1 as [|op ops1 IH]; intros s; simpl; [done|].
  destruct (exec v op s); simpl; [apply IH|done].
Qed.

Lemma run_wf_snapshot (v : Variant) (ops : list Op) (s s' : State) :
  wf s → SnapshotUpToFlags s → (summarizing s = [] → NoDrift s) →
  run v ops s = Some s' →
  wf s' ∧ SnapshotUpToFlags s' ∧ (summarizing s' = [] → NoDrift s').
Proof.
  revert s. induction ops as [|op ops IH]; intros s Hwf Hup Hex; simpl.
  - by intros [= <-].
  - destruct (exec v op s) as [s1|] eqn:Hexec; [|done]. simpl.
    destruct (exec_snapshot v op s s1 Hwf Hup Hex Hexec) as [Hup1 Hex1].
    apply IH; [by eapply exec_wf|done..].
Qed.

(** While a summarization call is outstanding, an add that finds nothing
    new completes and leaves the snapshot different from the
    serialization of the list. *)
Lemma C1_counterexample :
  NoDrift sampleState ∧ summarizing sampleState = []
  ∧ ∃ s',
      run MultiArticle
        [OpSummarize "art-1700000000000-0"; OpAddArticles [sampleDup1]] sampleState
      = Some s'
      ∧ ¬ NoDrift s'.
Proof.
  split; [reflexivity|]. split; [reflexivity|].
  eexists. split; [reflexivity|].
  unfold NoDrift. vm_compute. discriminate.
Qed.

(** ** Loading *)

Lemma article_of_to_json (a : Article) : article_of_json (article_to_json a) = Some a.
Proof. by destruct a as [i t c src [sm|] [fl|]]. Qed.

Lemma mapM_article_of_to_json (arts : list Article) :
  mapM article_of_json (article_to_json <$> arts) = Some arts.
Proof.
  apply mapM_Some. induction arts as [|a arts IH]; simpl; constructor; [|done].
  apply article_of_to_json.
Qed.








(** ** The other paths of the client *)

(** The continuation of [fetchArticlesFromSource] on a successful
    response is the add event on the objects it builds. *)
Lemma fetchArticlesFromSource_resume_ok (v : Variant) (now : nat → N)
    (data : list Article) (s : State) :
  Some (fetchArticlesFromSource_resume now (FetchOk data) s)
  = set_addUrlBtnDisabled false <$> exec v (OpAddArticles (newArticlesOf now data)) s.
Proof. reflexivity. Qed.

(** A failed fetch changes neither the list nor the stored state. *)
Lemma fetchArticlesFromSource_resume_error (now : nat → N) (r : FetchSettled)
    (s : State) :
  (∀ data, r ≠ FetchOk data) →
  let s' := fetchArticlesFromSource_resume now r s in
  articles s' = articles s ∧ heap s' = heap s ∧ localStorage s' = localStorage s
  ∧ ∃ msg, alerts s' = alerts s ++ ["Could not fetch articles: " +:+ msg].
Proof.
  intros Hr. destruct r as [m|e st|data]; [| |by destruct (Hr data)];
    cbv zeta; simpl; split_and!; try done; by eexists.
Qed.

(** With complete settings and a backend URL the [URL] constructor
    accepts, exactly one request goes out, to the fixed path, carrying the
    URL as query parameter and the key as bearer token. *)
Lemma fetchArticlesFromSource_request (URL_error : string → option string)
    (URL_opaquePath : string → bool)
    (u : string) (s : State) (b : BackendSettings) :
  backendSettings s = Some b → url b ≠ "" → key b ≠ "" →
  URL_error (url b) = None →
  fetchCalls (fetchArticlesFromSource URL_error URL_opaquePath u s)
  = fetchCalls s
    ++ [mkFetchRequest (url b)
          (if URL_opaquePath (url b) then None else Some "/fetch-source")
          u ("Bearer " +:+ key b)].
Proof.
  intros Hb Hu Hk Hok. unfold fetchArticlesFromSource.
  destruct (settingsMissing (backendSettings s)) eqn:Hm.
  - apply settingsMissing_spec in Hm as [?|(x & Hx & [?|?])]; congruence.
  - by rewrite Hb, Hok.
Qed.

(** The scenario of the paste form: on the empty store, title "A" and
    content "B" give a list of one article from "Pasted Text" whose id
    starts with "text-". *)
Example submitText_example :
  articleObjects (submitText 1700000000000 " A" "B " emptyState)
  = [mkArticle "text-1700000000000" "A" "B" "Pasted Text" None None].
Proof. reflexivity. Qed.

Example trim_example :
  trim (LF +:+ "  two words " +:+ LF) = "two words".
Proof. reflexivity. Qed.


(** ** What [saveState] writes *)

Lemma saveState_storedBy (s : State) :
  saveState s
  = set_localStorage
      (storedBy (articleObjects s) (backendSettings s) (localStorage s)) s.
Proof. reflexivity. Qed.

Lemma storedBy_lookup (objs : list Article) (b : option BackendSettings)
    (m : gmap string json) (k : string) :
  storedBy objs b m !! k
  = if decide (k = articlesKey) then Some (stringify_articles objs)
    else match b with
         | Some x => if decide (k = settingsKey) then Some (settings_to_json x)
                     else m !! k
         | None => m !! k
         end.
Proof.
  unfold storedBy. pose proof keys_distinct as Hk.
  destruct b as [x|]; cbv zeta.
  - destruct (decide (k = articlesKey)) as [->|Ha].
    + rewrite lookup_insert_ne by done. apply lookup_insert_eq.
    + destruct (decide (k = settingsKey)) as [->|Hs].
      * apply lookup_insert_eq.
      * by rewrite !lookup_insert_ne.
  - destruct (decide (k = articlesKey)) as [->|Ha].
    + apply lookup_insert_eq.
    + by rewrite lookup_insert_ne.
Qed.

Lemma storedBy_storedBy (objs objs' : list Article) (b : option BackendSettings)
    (m : gmap string json) :
  storedBy objs b (storedBy objs' b m) = storedBy objs b m.
Proof.
  apply map_eq. intros k. rewrite !storedBy_lookup.
  destruct (decide (k = articlesKey)); [done|].
  destruct b; [|done]. by destruct (decide (k = settingsKey)).
Qed.


(** ** More on removal *)

Lemma removeArticle_unfold (articleId : string) (s : State) :
  removeArticle articleId s
  = saveState
      (set_articles
         (List.filter (λ l, match heap s !! l with
                            | Some a => keepsId articleId a
                            | None => true
                            end) (articles s)) s).
Proof. reflexivity. Qed.

Lemma omap_lookup_filter {A} (h : list A) (f : A → bool) (ls : list nat) :
  omap (λ l, h !! l)
    (List.filter (λ l, match h !! l with Some a => f a | None => true end) ls)
  = List.filter f (omap (λ l, h !! l) ls).
Proof.
  induction ls as [|l ls IH]; [done|]. cbn [List.filter].
  destruct (h !! l) as [a|] eqn:Hl.
  - destruct (f a) eqn:Hf.
    + change (omap (λ l, h !! l) (l :: ?t)) with
        (match h !! l with Some y => y :: omap (λ l, h !! l) t
                      | None => omap (λ l, h !! l) t end).
      rewrite Hl. cbn [List.filter]. rewrite Hf. f_equal. exact IH.
    + change (omap (λ l, h !! l) (l :: ?t)) with
        (match h !! l with Some y => y :: omap (λ l, h !! l) t
                      | None => omap (λ l, h !! l) t end).
      rewrite Hl. cbn [List.filter]. rewrite Hf. exact IH.
  - change (omap (λ l, h !! l) (l :: ?t)) with
      (match h !! l with Some y => y :: omap (λ l, h !! l) t
                    | None => omap (λ l, h !! l) t end).
    rewrite Hl. exact IH.
Qed.

Lemma removeArticle_objects (articleId : string) (s : State) :
  articleObjects (removeArticle articleId s)
  = List.filter (keepsId articleId) (articleObjects s).
Proof.
  rewrite removeArticle_unfold. unfold articleObjects; simpl.
  apply omap_lookup_filter.
Qed.

(** X2. [removeArticle] drops every article that carries the id, not the
    first one only, and nothing else: the objects left are those with
    another id, in their order; a later lookup of the id finds nothing;
    the objects themselves are not touched; the snapshot is rewritten. *)
Theorem removeArticle_removes_every_match (s : State) (articleId : string) :
  let s' := removeArticle articleId s in
  articleObjects s' = List.filter (keepsId articleId) (articleObjects s)
  ∧ Forall (λ a, id a ≠ articleId) (articleObjects s')
  ∧ find_by_id (heap s') articleId (articles s') = None
  ∧ heap s' = heap s
  ∧ NoDrift s'.
Proof.
  cbv zeta. split_and!.
  - apply removeArticle_objects.
  - rewrite removeArticle_objects. apply Forall_forall.
    intros a Ha%list_elem_of_In%filter_In. destruct Ha as [_ Ha].
    by apply bool_decide_eq_true in Ha.
  - apply find_by_id_None. intros l a Hl Ha.
    rewrite removeArticle_unfold in Hl. simpl in Hl.
    apply list_elem_of_In, filter_In in Hl as [_ Hk].
    change (heap (removeArticle articleId s)) with (heap s) in Ha.
    rewrite Ha in Hk. by apply bool_decide_eq_true in Hk.
  - reflexivity.
  - rewrite removeArticle_unfold. apply saveState_NoDrift.
Qed.

Lemma List_filter_comm {A} (f g : A → bool) (l : list A) :
  List.filter f (List.filter g l) = List.filter g (List.filter f l).
Proof.
  induction l as [|x l IH]; [done|]. cbn [List.filter].
  destruct (f x) eqn:Hf, (g x) eqn:Hg; cbn [List.filter];
    rewrite ?Hf, ?Hg, IH; done.
Qed.

Lemma List_filter_idemp {A} (f : A → bool) (l : list A) :
  List.filter f (List.filter f l) = List.filter f l.
Proof.
  induction l as [|x l IH]; [done|]. cbn [List.filter].
  destruct (f x) eqn:Hf; cbn [List.filter]; rewrite ?Hf, IH; done.
Qed.

Lemma removeArticle_fields (articleId : string) (s : State) :
  removeArticle articleId s
  = mkState (heap s)
      (List.filter (λ l, match heap s !! l with
                         | Some a => keepsId articleId a
                         | None => true
                         end) (articles s))
      (backendSettings s)
      (storedBy (List.filter (keepsId articleId) (articleObjects s))
         (backendSettings s) (localStorage s))
      (settingsModalOpen s) (addUrlBtnDisabled s) (alerts s)
      (generateCalls s) (fetchCalls s) (summarizing s).
Proof.
  rewrite <- removeArticle_objects. reflexivity.
Qed.

(** X3. Removals commute, and removing an id twice is removing it once:
    the whole state, storage included, is the same. *)
Theorem removeArticle_commutes (s : State) (i j : string) :
  removeArticle i (removeArticle j s) = removeArticle j (removeArticle i s)
  ∧ removeArticle i (removeArticle i s) = removeArticle i s.
Proof.
  split.
  - rewrite (removeArticle_fields i (removeArticle j s)).
    rewrite (removeArticle_fields j (removeArticle i s)).
    rewrite !removeArticle_objects.
    rewrite (removeArticle_fields i s), (removeArticle_fields j s). simpl.
    rewrite !storedBy_storedBy.
    f_equal; [apply List_filter_comm|].
    f_equal. apply List_filter_comm.
  - rewrite (removeArticle_fields i (removeArticle i s)).
    rewrite !removeArticle_objects.
    rewrite (removeArticle_fields i s). simpl.
    rewrite storedBy_storedBy, !List_filter_idemp. done.
Qed.

(** ** More on the completion of a summarization call *)

Lemma handleSummarize_resume_fields (l : loc) (r : Settled) (s : State) :
  handleSummarize_resume l r s
  = mkState (alter (settle r) l (heap s)) (articles s) (backendSettings s)
      (storedBy (omap (λ x, alter (settle r) l (heap s) !! x) (articles s))
         (backendSettings s) (localStorage s))
      (settingsModalOpen s) (addUrlBtnDisabled s) (alerts s ++ settleAlerts r)
      (generateCalls s) (fetchCalls s) (remove_one l (summarizing s)).
Proof.
  unfold handleSummarize_resume, settle, settleAlerts.
  destruct r as [[text|]|]; cbv zeta.
  - rewrite saveState_storedBy. unfold articleObjects; simpl.
    rewrite list_alter_alter_eq, app_nil_r. reflexivity.
  - rewrite saveState_storedBy. reflexivity.
  - rewrite saveState_storedBy. reflexivity.
Qed.

Lemma omap_lookup_alter_notin {A} (f : A → A) (h : list A) (l : nat)
    (ls : list nat) :
  l ∉ ls →
  omap (λ x, alter f l h !! x) ls = omap (λ x, h !! x) ls.
Proof.
  induction ls as [|x ls IH]; [done|].
  intros Hl. apply not_elem_of_cons in Hl as [Hne Hl].
  change (omap (λ x, alter f l h !! x) (x :: ls))
    with (match alter f l h !! x with
          | Some y => y :: omap (λ x, alter f l h !! x) ls
          | None => omap (λ x, alter f l h !! x) ls
          end).
  rewrite list_lookup_alter_ne by done. rewrite (IH Hl). reflexivity.
Qed.

(** X4. The completion of a call for an article that is no longer in the
    list (it was removed while the call was outstanding) does not bring it
    back: the list and its objects are as before, and the snapshot written
    is the serialization of that list.  The call still ends: the failure
    notice is shown if it failed, and the activation is gone. *)
Theorem completion_for_removed_article (l : loc) (r : Settled) (s : State) :
  l ∉ articles s →
  let s' := handleSummarize_resume l r s in
  articles s' = articles s
  ∧ articleObjects s' = articleObjects s
  ∧ localStorage s' !! articlesKey = Some (stringify_articles (articleObjects s))
  ∧ alerts s' = alerts s ++ settleAlerts r
  ∧ summarizing s' = remove_one l (summarizing s).
Proof.
  intros Hl. cbv zeta. rewrite handleSummarize_resume_fields.
  unfold articleObjects; simpl.
  rewrite storedBy_lookup, decide_True by done.
  rewrite (omap_lookup_alter_notin _ _ _ _ Hl). done.
Qed.

Lemma completion_for_removed_article_witness :
  ∃ s1,
    run MultiArticle
      [OpSummarize "art-1700000000000-0"; OpRemove "art-1700000000000-0"] sampleState
    = Some s1
    ∧ (0 ∉ articles s1)
    ∧ articleObjects (handleSummarize_resume 0 (Fulfilled (Some "Short.")) s1)
      = [sampleB].
Proof.
  pose (ops := [OpSummarize "art-1700000000000-0"; OpRemove "art-1700000000000-0"]).
  pose (s1 := default sampleState (run MultiArticle ops sampleState)).
  assert (0 ∉ articles s1) as Hl.
  { intros H. apply elem_of_cons in H as [H|H]; [discriminate|].
    by apply elem_of_nil in H. }
  exists s1. split; [reflexivity|]. split; [exact Hl|].
  destruct (completion_for_removed_article 0 (Fulfilled (Some "Short.")) s1 Hl)
    as (_ & -> & _).
  reflexivity.
Defined.

Lemma remove_one_comm (l1 l2 : loc) (ls : list loc) :
  remove_one l1 (remove_one l2 ls) = remove_one l2 (remove_one l1 ls).
Proof.
  induction ls as [|x ls IH]; [done|]. simpl.
  destruct (decide (x = l2)) as [H2|H2], (decide (x = l1)) as [H1|H1]; simpl.
  - by subst.
  - by rewrite decide_True.
  - by rewrite decide_True.
  - rewrite !decide_False by done. by rewrite IH.
Qed.

(** X5. The completions of two calls held for different objects commute:
    in either order the whole state is the same — objects, list, storage,
    notices and the calls still outstanding. *)
Theorem completions_commute (l1 l2 : loc) (r1 r2 : Settled) (s : State) :
  l1 ≠ l2 →
  handleSummarize_resume l1 r1 (handleSummarize_resume l2 r2 s)
  = handleSummarize_resume l2 r2 (handleSummarize_resume l1 r1 s).
Proof.
  intros Hne.
  rewrite (handleSummarize_resume_fields l1 r1 (handleSummarize_resume l2 r2 s)).
  rewrite (handleSummarize_resume_fields l2 r2 (handleSummarize_resume l1 r1 s)).
  rewrite (handleSummarize_resume_fields l2 r2 s).
  rewrite (handleSummarize_resume_fields l1 r1 s). simpl.
  rewrite !storedBy_storedBy.
  rewrite (list_alter_alter_ne (settle r1) (settle r2) (heap s) l1 l2 Hne).
  rewrite (remove_one_comm l1 l2).
  f_equal. rewrite <- !app_assoc. f_equal.
  by destruct r1 as [[?|]|], r2 as [[?|]|].
Qed.

Lemma completions_commute_witness :
  handleSummarize_resume 0 Rejected
    (handleSummarize_resume 1 (Fulfilled (Some " Both. ")) sampleState)
  = handleSummarize_resume 1 (Fulfilled (Some " Both. "))
      (handleSummarize_resume 0 Rejected sampleState).
Proof.
  apply (completions_commute 0 1 Rejected (Fulfilled (Some " Both. ")) sampleState).
  discriminate.
Defined.

Lemma find_by_id_alter (h : list Article) (i : string) (ls : list loc) l a
    (f : Article → Article) :
  find_by_id h i ls = Some (l, a) →
  id (f a) = id a →
  find_by_id (alter f l h) i ls = Some (l, f a).
Proof.
  intros Hfind Hid.
  destruct (find_by_id_Some _ _ _ _ _ Hfind) as (Hl & _ & _).
  assert (alter f l h = <[l := f a]> h) as ->.
  { rewrite list_insert_alter. apply list_alter_ext; [|done].
    intros x Hx. congruence. }
  by apply (find_by_id_insert h i ls l a).
Qed.

(** X6. Summarize can be invoked again once the call has completed,
    whether it failed or succeeded: if the id still finds the article, the
    next invocation passes the guard and issues exactly one new call, with
    the same prompt, and the article is flagged again. *)
Theorem summarize_again_after_completion (v : Variant) (l : loc) (r : Settled)
    (s : State) (articleId : string) (a : Article) :
  find_by_id (heap s) articleId (articles s) = Some (l, a) →
  let s1 := handleSummarize_resume l r s in
  let s2 := handleSummarize v articleId s1 in
  generateCalls s2
  = generateCalls s ++ [mkGenerateContentRequest summarizeModel (summarizePrompt v a)]
  ∧ summarizing s2 = remove_one l (summarizing s) ++ [l]
  ∧ heap s2 !! l = Some (set_isSummarizing (Some true) (settle r a)).
Proof.
  intros Hfind. cbv zeta.
  destruct (find_by_id_Some _ _ _ _ _ Hfind) as (Hl & _ & _).
  assert (find_by_id (heap (handleSummarize_resume l r s)) articleId
            (articles (handleSummarize_resume l r s)) = Some (l, settle r a)) as Hf.
  { rewrite handleSummarize_resume_fields; simpl.
    apply find_by_id_alter; [done|]. by destruct r as [[?|]|]. }
  rewrite (handleSummarize_starts v _ articleId l (settle r a) Hf) by done.
  rewrite handleSummarize_resume_fields; simpl. split_and!.
  - by destruct r as [[?|]|].
  - done.
  - apply list_lookup_insert_eq. rewrite length_alter. by eapply lookup_lt_Some.
Qed.

Lemma summarize_again_after_completion_witness :
  let s := handleSummarize MultiArticle "art-1700000000000-0" sampleState in
  let s1 := handleSummarize_resume 0 Rejected s in
  let s2 := handleSummarize MultiArticle "art-1700000000000-0" s1 in
  length (generateCalls s2) = 2 ∧ summarizing s2 = [0].
Proof.
  cbv zeta.
  destruct (summarize_again_after_completion MultiArticle 0 Rejected
              (handleSummarize MultiArticle "art-1700000000000-0" sampleState)
              "art-1700000000000-0" (set_isSummarizing (Some true) sampleA) eq_refl)
    as (-> & -> & _).
  split; reflexivity.
Defined.

(** X7. Invoking summarize never touches the list, the storage, the
    notices, the fetch log or the settings, and changes no object except
    in its [isSummarizing] flag; and for an id no listed article carries
    it does nothing at all. *)
Theorem handleSummarize_frame (v : Variant) (articleId : string) (s : State) :
  let s' := handleSummarize v articleId s in
  articles s' = articles s
  ∧ localStorage s' = localStorage s
  ∧ alerts s' = alerts s
  ∧ fetchCalls s' = fetchCalls s
  ∧ backendSettings s' = backendSettings s
  ∧ clearFlag <$> heap s' = clearFlag <$> heap s
  ∧ ((∀ l a, l ∈ articles s → heap s !! l = Some a → id a ≠ articleId) → s' = s).
Proof.
  cbv zeta. unfold handleSummarize.
  destruct (find_by_id (heap s) articleId (articles s)) as [[l a]|] eqn:Hf.
  - destruct (find_by_id_Some _ _ _ _ _ Hf) as (Hl & Hid & Hin).
    destruct (truthy_bool (isSummarizing a)).
    + by split_and!.
    + simpl. split_and!; try done.
      * rewrite list_fmap_insert. apply list_insert_id.
        by rewrite list_lookup_fmap, Hl.
      * intros H. by destruct (H l a Hin Hl).
  - by split_and!.
Qed.

(** ** Outstanding calls along a run *)

Lemma exec_pendingFlagged (v : Variant) (op : Op) (s s' : State) :
  pendingFlagged s → exec v op s = Some s' → pendingFlagged s'.
Proof.
  intros [Hnd Hfl] Hexec.
  assert (∀ objs, Forall (λ l, ∃ a, (heap s ++ objs) !! l = Some a
                               ∧ isSummarizing a = Some true) (summarizing s))
    as Happ.
  { intros objs. eapply Forall_impl; [exact Hfl|]. simpl.
    intros l (a & Hl & Ha). exists a. split; [|done].
    rewrite lookup_app_l; [done|by eapply lookup_lt_Some]. }
  destruct op as [data|b|i|i|l r]; simpl in Hexec.
  - injection Hexec as <-. unfold pendingFlagged.
    rewrite addArticles_summarizing, addArticles_heap. split; [done|apply Happ].
  - injection Hexec as <-. split; [done|apply Happ].
  - injection Hexec as <-. by split.
  - injection Hexec as <-. unfold handleSummarize.
    destruct (find_by_id (heap s) i (articles s)) as [[l a]|] eqn:Hf; [|by split].
    destruct (truthy_bool (isSummarizing a)) eqn:Ht; [by split|].
    destruct (find_by_id_Some _ _ _ _ _ Hf) as (Hl & _ & _).
    assert (l ∉ summarizing s) as Hnotin.
    { intros Hin. rewrite Forall_forall in Hfl.
      destruct (Hfl l Hin) as (a' & Hl' & Ha'). rewrite Hl in Hl'.
      injection Hl' as <-. by rewrite Ha' in Ht. }
    split; simpl.
    + apply NoDup_app. split_and!; [done| |apply NoDup_singleton].
      intros x Hx ->%list_elem_of_singleton. done.
    + apply Forall_app. split.
      * apply Forall_forall. intros x Hx. rewrite Forall_forall in Hfl.
        destruct (Hfl x Hx) as (a' & Hx' & Ha'). exists a'. split; [|done].
        rewrite list_lookup_insert_ne; [done|]. by intros ->.
      * constructor; [|done]. exists (set_isSummarizing (Some true) a).
        split; [|reflexivity].
        apply list_lookup_insert_eq. by eapply lookup_lt_Some.
  - destruct (decide (l ∈ summarizing s)) as [Hin|]; [|done].
    injection Hexec as <-. rewrite handleSummarize_resume_fields.
    unfold pendingFlagged; simpl.
    assert (∀ x, x ∈ remove_one l (summarizing s) → x ∈ summarizing s ∧ x ≠ l)
      as Hsub.
    { clear -Hnd. induction Hnd as [|y ls Hy Hls IH]; simpl; [by intros x ?%elem_of_nil|].
      intros x Hx. destruct (decide (y = l)) as [->|Hne].
      - split; [by apply list_elem_of_further|]. by intros ->.
      - apply elem_of_cons in Hx as [->|Hx]; [split; [apply list_elem_of_here|done]|].
        destruct (IH x Hx). split; [by apply list_elem_of_further|done]. }
    split.
    + clear -Hnd. induction Hnd as [|y ls Hy Hls IH]; simpl; [constructor|].
      destruct (decide (y = l)); [done|]. constructor; [|done].
      intros Hin. apply Hy. clear -Hin.
      induction ls as [|z ls IH]; simpl in Hin; [done|].
      destruct (decide (z = l)); [by apply list_elem_of_further|].
      apply elem_of_cons in Hin as [->|Hin]; [apply list_elem_of_here|].
      by apply list_elem_of_further, IH.
    + apply Forall_forall. intros x Hx. destruct (Hsub x Hx) as [Hx' Hne].
      rewrite Forall_forall in Hfl. destruct (Hfl x Hx') as (a & Ha & Hflag).
      exists a. split; [|done]. by rewrite list_lookup_alter_ne.
Qed.

(** X8. At most one call is outstanding per article object, and an object
    with an outstanding call is flagged [isSummarizing]: both hold after
    any sequence of adds, removals, summarize invocations and completions
    when they hold before (in particular from a state with no outstanding
    call). *)
Theorem outstanding_calls_invariant (v : Variant) (ops : list Op) (s s' : State) :
  pendingFlagged s → run v ops s = Some s' → pendingFlagged s'.
Proof.
  revert s. induction ops as [|op ops IH]; intros s Hp; simpl.
  - by intros [= <-].
  - destruct (exec v op s) as [s1|] eqn:Hexec; [|done]. simpl.
    apply IH. by eapply exec_pendingFlagged.
Qed.

Lemma outstanding_calls_invariant_witness :
  ∃ s',
    run MultiArticle
      [OpSummarize "art-1700000000000-0"; OpSummarize "art-1700000000000-1";
       OpSummarize "art-1700000000000-0"; OpSummarizeSettled 1 Rejected;
       OpSummarize "art-1700000000000-0"] sampleState = Some s'
    ∧ pendingFlagged s'
    ∧ summarizing s' = [0].
Proof.
  pose (ops := [OpSummarize "art-1700000000000-0"; OpSummarize "art-1700000000000-1";
                OpSummarize "art-1700000000000-0"; OpSummarizeSettled 1 Rejected;
                OpSummarize "art-1700000000000-0"]).
  pose (s' := default sampleState (run MultiArticle ops sampleState)).
  assert (pendingFlagged sampleState) as Hp by (split; simpl; constructor).
  assert (run MultiArticle ops sampleState = Some s') as Hrun
    by (vm_compute; reflexivity).
  exists s'. split; [exact Hrun|]. split; [|vm_compute; reflexivity].
  exact (outstanding_calls_invariant MultiArticle ops sampleState s' Hp Hrun).
Defined.

Lemma length_remove_one (l : loc) (ls : list loc) :
  l ∈ ls → S (length (remove_one l ls)) = length ls.
Proof.
  induction ls as [|x ls IH]; simpl; [by intros ?%elem_of_nil|].
  intros Hl. destruct (decide (x = l)) as [->|Hne]; [done|].
  apply elem_of_cons in Hl as [->|Hl]; [done|]. simpl. by rewrite IH.
Qed.

Lemma addArticles_generateCalls (newArticles : list loc) (s : State) :
  generateCalls (addArticles newArticles s) = generateCalls s.
Proof.
  unfold addArticles.
  destruct (List.filter _ newArticles); reflexivity.
Qed.

Lemma exec_call_accounting (v : Variant) (op : Op) (s s' : State) :
  exec v op s = Some s' →
  length (generateCalls s') + length (summarizing s)
  = length (generateCalls s) + length (summarizing s')
    + (if isSettling op then 1 else 0).
Proof.
  intros Hexec. destruct op as [data|b|i|i|l r]; simpl in Hexec.
  - injection Hexec as <-.
    rewrite addArticles_generateCalls, addArticles_summarizing. simpl. lia.
  - injection Hexec as <-. simpl. lia.
  - injection Hexec as <-. simpl. lia.
  - injection Hexec as <-. unfold handleSummarize.
    destruct (find_by_id (heap s) i (articles s)) as [[l a]|]; [|simpl; lia].
    destruct (truthy_bool (isSummarizing a)); simpl; [lia|].
    rewrite !length_app. simpl. lia.
  - destruct (decide (l ∈ summarizing s)) as [Hin|]; [|done].
    injection Hexec as <-. rewrite handleSummarize_resume_fields. simpl.
    pose proof (length_remove_one l (summarizing s) Hin). lia.
Qed.

(** X9. Every outbound summarization call is accounted for: along any
    run, the calls issued are as many as the completions that happened
    plus the growth of the set of outstanding calls. *)
Theorem summarization_calls_accounted (v : Variant) (ops : list Op) (s s' : State) :
  run v ops s = Some s' →
  length (generateCalls s') + length (summarizing s)
  = length (generateCalls s) + length (summarizing s')
    + length (List.filter isSettling ops).
Proof.
  revert s. induction ops as [|op ops IH]; intros s; simpl.
  - intros [= <-]. lia.
  - destruct (exec v op s) as [s1|] eqn:Hexec; [|done]. simpl. intros Hrun.
    pose proof (exec_call_accounting v op s s1 Hexec) as H1.
    pose proof (IH s1 Hrun) as H2.
    destruct (isSettling op); simpl; lia.
Qed.

Lemma summarization_calls_accounted_witness :
  ∃ s',
    run MultiArticle
      [OpSummarize "art-1700000000000-0"; OpSummarize "art-1700000000000-0";
       OpSummarizeSettled 0 Rejected; OpSummarize "art-1700000000000-0"]
      sampleState = Some s'
    ∧ length (generateCalls s') + 0 = 0 + length (summarizing s') + 1.
Proof.
  pose (ops := [OpSummarize "art-1700000000000-0"; OpSummarize "art-1700000000000-0";
                OpSummarizeSettled 0 Rejected; OpSummarize "art-1700000000000-0"]).
  pose (s' := default sampleState (run MultiArticle ops sampleState)).
  assert (run MultiArticle ops sampleState = Some s') as Hrun
    by (vm_compute; reflexivity).
  exists s'. split; [exact Hrun|].
  exact (summarization_calls_accounted MultiArticle ops sampleState s' Hrun).
Defined.

(** ** Fetching the same source again *)

Lemma sourceKnown_spec (existing : list Article) (newArt : Article) :
  sourceKnown existing newArt = true
  ↔ ∃ b, b ∈ existing ∧ source b = source newArt.
Proof.
  unfold sourceKnown. rewrite existsb_exists. split.
  - intros (b & Hb & Hs). exists b. split; [by apply list_elem_of_In|].
    by apply bool_decide_eq_true in Hs.
  - intros (b & Hb & Hs). exists b. split; [by apply list_elem_of_In|].
    by apply bool_decide_eq_true.
Qed.

Lemma exec_OpAddArticles_nothing_new (v : Variant) (data : list Article) (s : State) :
  wf s →
  (∀ a, a ∈ data → sourceKnown (articleObjects s) a = true) →
  exec v (OpAddArticles data) s
  = Some (alert noNewArticlesMsg (set_heap (heap s ++ data) s)).
Proof.
  intros Hwf Hknown.
  change (exec v (OpAddArticles data) s)
    with (Some (addArticles (seq (length (heap s)) (length data))
                  (allocate data s).2)).
  f_equal. rewrite addArticles_nothing_new; [done|].
  intros l Hl%list_elem_of_In%in_seq.
  destruct (lookup_lt_is_Some_2 data (l - length (heap s))) as [a Ha]; [lia|].
  replace l with (length (heap s) + (l - length (heap s))) by lia.
  rewrite (sourceListed_allocated s data _ a Hwf Ha).
  apply Hknown. by eapply list_elem_of_lookup_2.
Qed.

(** X10. Fetching a source again adds nothing: after a batch has been
    added, a batch whose sources all occur in the first one is filtered
    out entirely, whether its members were added the first time or were
    already known then.  The list, its objects and the storage stay as
    they are and the "no new articles" notice is shown. *)
Theorem refetch_adds_nothing (v : Variant) (data data' : list Article)
    (s s1 : State) :
  wf s →
  exec v (OpAddArticles data) s = Some s1 →
  (∀ a', a' ∈ data' → ∃ a, a ∈ data ∧ source a = source a') →
  ∃ s2, exec v (OpAddArticles data') s1 = Some s2
        ∧ articles s2 = articles s1
        ∧ articleObjects s2 = articleObjects s1
        ∧ localStorage s2 = localStorage s1
        ∧ alerts s2 = alerts s1 ++ [noNewArticlesMsg].
Proof.
  intros Hwf Hexec Hsrc.
  pose proof (exec_wf v _ s s1 Hwf Hexec) as Hwf1.
  pose proof (exec_OpAddArticles_objects v data s s1 Hwf Hexec) as Hobjs.
  assert (∀ a', a' ∈ data' → sourceKnown (articleObjects s1) a' = true) as Hknown.
  { intros a' Ha'. destruct (Hsrc a' Ha') as (a & Ha & Hs).
    apply sourceKnown_spec. rewrite Hobjs.
    destruct (sourceKnown (articleObjects s) a) eqn:Hk.
    - apply sourceKnown_spec in Hk as (b & Hb & Hbs). exists b.
      split; [apply elem_of_app; by right|congruence].
    - exists a. split; [|done]. apply elem_of_app. left.
      apply list_elem_of_In, filter_In. split; [by apply list_elem_of_In|].
      by rewrite Hk. }
  eexists. split; [by apply exec_OpAddArticles_nothing_new|].
  split_and!; try done.
  unfold articleObjects; simpl. apply omap_lookup_app_old, Hwf1.
Qed.

Lemma refetch_adds_nothing_witness :
  ∃ s1 s2,
    exec MultiArticle (OpAddArticles [sampleDup1; sampleNew1]) sampleState = Some s1
    ∧ exec MultiArticle (OpAddArticles [sampleNew2; sampleDup2]) s1 = Some s2
    ∧ articleObjects s2 = [sampleNew1; sampleA; sampleB].
Proof.
  pose (s1 := default sampleState
                (exec MultiArticle (OpAddArticles [sampleDup1; sampleNew1]) sampleState)).
  assert (wf sampleState) as Hwf by (split; simpl; repeat constructor).
  assert (exec MultiArticle (OpAddArticles [sampleDup1; sampleNew1]) sampleState
          = Some s1) as H1 by reflexivity.
  destruct (refetch_adds_nothing MultiArticle [sampleDup1; sampleNew1]
              [sampleNew2; sampleDup2] sampleState s1 Hwf H1)
    as (s2 & H2 & _ & Hobjs & _).
  { intros a' Ha'.
    apply elem_of_cons in Ha' as [->|Ha'];
      [exists sampleNew1; split; [apply list_elem_of_further, list_elem_of_here|done]|].
    apply elem_of_cons in Ha' as [->|Ha']; [|by apply elem_of_nil in Ha'].
    exists sampleDup1. split; [apply list_elem_of_here|done]. }
  exists s1, s2. split; [exact H1|]. split; [exact H2|].
  rewrite Hobjs. reflexivity.
Defined.

(** ** The continuation of the fetch *)

Lemma newArticlesOf_lookup (now : nat → N) (data : list Article) (i : nat) :
  newArticlesOf now data !! i
  = set_id ("art-" +:+ pretty (now i) +:+ "-" +:+ pretty (N.of_nat i)) <$> data !! i.
Proof. unfold newArticlesOf. rewrite list_lookup_imap. by destruct (data !! i). Qed.

Lemma pretty_N_char_noDash (x : N) : Ascii.eqb (pretty_N_char x) (Ascii.ascii_of_nat 45) = false.
Proof. unfold pretty_N_char. by repeat case_match. Qed.

Lemma pretty_N_go_noDash (x : N) (s : string) :
  hasDash s = false → hasDash (pretty_N_go x s) = false.
Proof.
  revert s. induction (N.lt_wf_0 x) as [x _ IH]; intros s Hs.
  assert (x = 0 ∨ 0 < x)%N as [->|Hx] by lia.
  - by rewrite pretty_N_go_0.
  - rewrite pretty_N_go_step by done. apply IH.
    + by apply N.div_lt.
    + simpl. by rewrite pretty_N_char_noDash.
Qed.

Lemma pretty_N_noDash (x : N) : hasDash (pretty x) = false.
Proof.
  unfold pretty, pretty_N. case_decide; [done|].
  by apply pretty_N_go_noDash.
Qed.

Lemma split_at_dash (s1 s2 t1 t2 : string) :
  hasDash s1 = false → hasDash s2 = false →
  s1 +:+ "-" +:+ t1 = s2 +:+ "-" +:+ t2 → s1 = s2 ∧ t1 = t2.
Proof.
  revert s2. induction s1 as [|c s1 IH]; intros [|d s2] H1 H2 Heq.
  - change (String (Ascii.ascii_of_nat 45) t1 = String (Ascii.ascii_of_nat 45) t2) in Heq.
    by injection Heq as <-.
  - exfalso.
    change (String (Ascii.ascii_of_nat 45) t1 = String d (s2 +:+ "-" +:+ t2)) in Heq.
    injection Heq as <- _. simpl in H2. done.
  - exfalso.
    change (String c (s1 +:+ "-" +:+ t1) = String (Ascii.ascii_of_nat 45) t2) in Heq.
    injection Heq as -> _. simpl in H1. done.
  - change (String c (s1 +:+ "-" +:+ t1) = String d (s2 +:+ "-" +:+ t2)) in Heq.
    injection Heq as -> Heq. simpl in H1, H2.
    apply orb_false_iff in H1 as [_ H1]. apply orb_false_iff in H2 as [_ H2].
    destruct (IH s2 H1 H2 Heq) as [-> ->]. done.
Qed.

(** X11. The ids given to the articles of one response are pairwise
    different, whatever the response holds and whatever [Date.now()]
    returns for each element (the same time for all, or different ones):
    the index is part of the id and the time is written in digits.  The
    other fields are those of the response, and no article is lost or
    reordered. *)
Theorem newArticlesOf_distinct_ids (now : nat → N) (data : list Article) :
  NoDup (id <$> newArticlesOf now data)
  ∧ length (newArticlesOf now data) = length data
  ∧ (∀ i a, data !! i = Some a →
       ∃ a', newArticlesOf now data !! i = Some a'
             ∧ id a' = "art-" +:+ pretty (now i) +:+ "-" +:+ pretty (N.of_nat i)
             ∧ title a' = title a ∧ content a' = content a
             ∧ source a' = source a ∧ summary a' = summary a
             ∧ isSummarizing a' = isSummarizing a).
Proof.
  split_and!.
  - apply NoDup_alt. intros i j x Hi Hj.
    rewrite list_lookup_fmap, newArticlesOf_lookup in Hi, Hj.
    destruct (data !! i) as [a|]; [|done].
    destruct (data !! j) as [b|]; [|done].
    simpl in Hi, Hj. apply (inj Some) in Hi as <-. apply (inj Some) in Hj.
    apply (inj (String.app "art-")) in Hj.
    apply split_at_dash in Hj as [_ Hj]; [|apply pretty_N_noDash..].
    apply (inj pretty) in Hj. by apply Nat2N.inj in Hj.
  - unfold newArticlesOf. apply length_imap.
  - intros i a Ha. rewrite newArticlesOf_lookup, Ha. simpl.
    eexists. split; [reflexivity|]. by split_and!.
Qed.

(** X12. A successful response is added as one batch with fresh ids: the
    objects with an unknown source come first, those listed before follow,
    and the fetch button is enabled again.  An empty response is reported
    with the "no new articles" notice and changes neither the list nor the
    storage. *)
Theorem fetch_success_adds_batch (now : nat → N) (data : list Article) (s : State) :
  wf s →
  let s' := fetchArticlesFromSource_resume now (FetchOk data) s in
  articleObjects s'
  = List.filter (λ a, negb (sourceKnown (articleObjects s) a)) (newArticlesOf now data)
    ++ articleObjects s
  ∧ addUrlBtnDisabled s' = false
  ∧ (data = [] →
     articles s' = articles s ∧ localStorage s' = localStorage s
     ∧ alerts s' = alerts s ++ [noNewArticlesMsg]).
Proof.
  intros Hwf. cbv zeta. split_and!.
  - apply (exec_OpAddArticles_objects MultiArticle (newArticlesOf now data) s
             (addArticles (allocate (newArticlesOf now data) s).1
                (allocate (newArticlesOf now data) s).2) Hwf eq_refl).
  - reflexivity.
  - intros ->. done.
Qed.

Lemma fetch_success_adds_batch_witness :
  articleObjects
    (fetchArticlesFromSource_resume (λ _, 1700000000900%N)
       (FetchOk [mkArticle "" "Gamma" "Third body" "https://news.example/c" None None;
                 mkArticle "" "Alpha again" "Body" "https://news.example/a" None None])
       sampleState)
  = [sampleNew1; sampleA; sampleB].
Proof.
  assert (wf sampleState) as Hwf by (split; simpl; repeat constructor).
  destruct (fetch_success_adds_batch (λ _, 1700000000900%N)
              [mkArticle "" "Gamma" "Third body" "https://news.example/c" None None;
               mkArticle "" "Alpha again" "Body" "https://news.example/a" None None]
              sampleState Hwf) as (-> & _).
  vm_compute. reflexivity.
Defined.

(** X13. A failed fetch is reported and changes nothing else.  The notice
    carries the message of the error thrown; for a response that is not
    ok it carries the [error] field of the body when that is a non-empty
    string, and otherwise the fallback text with the status.  The list,
    its objects and the storage are untouched and the button is enabled
    again. *)
Theorem fetch_failure_reported (now : nat → N) (r : FetchSettled) (s : State) :
  let s' := fetchArticlesFromSource_resume now r s in
  (∀ data, r ≠ FetchOk data) →
  articles s' = articles s ∧ heap s' = heap s ∧ localStorage s' = localStorage s
  ∧ addUrlBtnDisabled s' = false
  ∧ alerts s'
    = alerts s
      ++ ["Could not fetch articles: "
          +:+ match r with
              | FetchThrew m => m
              | FetchNotOk (Some (String c e)) _ => String c e
              | FetchNotOk _ status => "Failed to fetch with status: " +:+ pretty status
              | FetchOk _ => ""
              end].
Proof.
  cbv zeta. intros Hr.
  destruct r as [m|[[|c e]|] status|data]; [done..|by destruct (Hr data)].
Qed.

Lemma fetch_failure_reported_witness :
  let s' := fetchArticlesFromSource_resume (λ _, 0%N) (FetchNotOk (Some "") 401)
              sampleState in
  articles s' = articles sampleState
  ∧ alerts s' = ["Could not fetch articles: Failed to fetch with status: 401"].
Proof.
  cbv zeta.
  destruct (fetch_failure_reported (λ _, 0%N) (FetchNotOk (Some "") 401) sampleState)
    as (-> & _ & _ & _ & ->); [discriminate|].
  split; reflexivity.
Defined.

(** X14. With complete settings the fetch function sends exactly one
    request when [new URL] accepts the backend URL, with the article URL
    as query parameter and the key as bearer token, the button being
    disabled meanwhile.  The request goes to the fixed path /fetch-source
    when the backend URL has a path that can be replaced; when it has an
    opaque path (as "localhost:5000" has) the assignment of the path has
    no effect and the request keeps the path of the backend URL.  When
    [new URL] throws on the backend URL nothing is sent, the error is
    reported and the button is enabled again.  Neither case touches the
    list or the storage. *)
Theorem fetch_request_or_refusal (URL_error : string → option string)
    (URL_opaquePath : string → bool)
    (u : string) (s : State) (b : BackendSettings) :
  backendSettings s = Some b → url b ≠ "" → key b ≠ "" →
  let s' := fetchArticlesFromSource URL_error URL_opaquePath u s in
  articles s' = articles s ∧ heap s' = heap s ∧ localStorage s' = localStorage s
  ∧ settingsModalOpen s' = settingsModalOpen s
  ∧ match URL_error (url b) with
    | None =>
        fetchCalls s'
        = fetchCalls s
          ++ [mkFetchRequest (url b)
                (if URL_opaquePath (url b) then None else Some "/fetch-source")
                u ("Bearer " +:+ key b)]
        ∧ alerts s' = alerts s ∧ addUrlBtnDisabled s' = true
    | Some m =>
        fetchCalls s' = fetchCalls s
        ∧ alerts s' = alerts s ++ ["Could not fetch articles: " +:+ m]
        ∧ addUrlBtnDisabled s' = false
    end.
Proof.
  intros Hb Hu Hk. cbv zeta. unfold fetchArticlesFromSource.
  destruct (settingsMissing (backendSettings s)) eqn:Hm.
  - apply settingsMissing_spec in Hm as [?|(x & Hx & [?|?])]; congruence.
  - rewrite Hb. by destruct (URL_error (url b)).
Qed.

Lemma fetch_request_or_refusal_witness :
  let s := set_backendSettings
             (Some (mkBackendSettings "localhost:5000" "secret")) sampleState in
  fetchCalls
    (fetchArticlesFromSource (λ _, None)
       (λ x, bool_decide (x = "localhost:5000")) "https://news.example/feed" s)
  = [mkFetchRequest "localhost:5000" None "https://news.example/feed" "Bearer secret"]
  ∧ fetchCalls
      (fetchArticlesFromSource (λ _, None)
         (λ x, bool_decide (x = "localhost:5000")) "https://news.example/feed"
         (set_backendSettings
            (Some (mkBackendSettings "https://backend.example:5000" "secret"))
            sampleState))
    = [mkFetchRequest "https://backend.example:5000" (Some "/fetch-source")
         "https://news.example/feed" "Bearer secret"].
Proof.
  cbv zeta. split.
  - destruct (fetch_request_or_refusal (λ _, None)
                (λ x, bool_decide (x = "localhost:5000")) "https://news.example/feed"
                (set_backendSettings
                   (Some (mkBackendSettings "localhost:5000" "secret")) sampleState)
                (mkBackendSettings "localhost:5000" "secret")
                eq_refl) as (_ & _ & _ & _ & H & _); [discriminate..|].
    exact H.
  - destruct (fetch_request_or_refusal (λ _, None)
                (λ x, bool_decide (x = "localhost:5000")) "https://news.example/feed"
                (set_backendSettings
                   (Some (mkBackendSettings "https://backend.example:5000" "secret"))
                   sampleState)
                (mkBackendSettings "https://backend.example:5000" "secret")
                eq_refl) as (_ & _ & _ & _ & H & _); [discriminate..|].
    exact H.
Defined.

(** ** Blank input *)

Lemma trimStart_empty (s : string) :
  trimStart s = "" ↔ allWhiteSpace s = true.
Proof.
  induction s as [|c r IH]; simpl; [done|].
  destruct (isWhiteSpace c); simpl; [exact IH|]. split; discriminate.
Qed.

Lemma trimEnd_empty (s : string) :
  trimEnd s = "" ↔ allWhiteSpace s = true.
Proof.
  induction s as [|c r IH]; simpl; [done|].
  destruct (trimEnd r) as [|c' r'] eqn:Hr.
  - destruct (isWhiteSpace c); simpl; [|split; discriminate].
    split; intros _; [by apply IH|done].
  - split; [discriminate|]. intros [_ Hall]%andb_true_iff.
    by apply IH in Hall.
Qed.

Lemma trim_empty (s : string) : trim s = "" ↔ allWhiteSpace s = true.
Proof.
  unfold trim. rewrite <- trimStart_empty. split.
  - intros H%trimEnd_empty.
    destruct (trimStart_spec s) as (_ & _ & _ & Hstart).
    destruct (trimStart s) as [|c r]; [done|].
    simpl in H, Hstart. by rewrite Hstart in H.
  - by intros ->.
Qed.

Lemma truthy_trim (s : string) :
  truthy_string (Some (trim s)) = negb (allWhiteSpace s).
Proof.
  destruct (allWhiteSpace s) eqn:Hs.
  - apply trim_empty in Hs. by rewrite Hs.
  - destruct (trim s) eqn:Ht; [|done].
    apply trim_empty in Ht. congruence.
Qed.

(** X15. The paste form of the README listing refuses a title or a
    content that is empty or white space only: it shows its notice and
    changes nothing.  Otherwise it puts a new article at the head of the
    list, with the trimmed title and content, the source "Pasted Text", an
    id made of "text-" and the time, no summary and no flag, and saves. *)
Theorem submitText_behaviour (now : N) (articleTitleInput articleTextInput : string)
    (s : State) :
  wf s →
  let s' := submitText now articleTitleInput articleTextInput s in
  (allWhiteSpace articleTitleInput = true ∨ allWhiteSpace articleTextInput = true →
   s' = alert "Please provide both a title and content for the article." s)
  ∧ (allWhiteSpace articleTitleInput = false →
     allWhiteSpace articleTextInput = false →
     articleObjects s'
     = mkArticle ("text-" +:+ pretty now) (trim articleTitleInput)
         (trim articleTextInput) "Pasted Text" None None
       :: articleObjects s
     ∧ NoDrift s' ∧ alerts s' = alerts s).
Proof.
  intros Hwf. cbv zeta. unfold submitText. rewrite !truthy_trim. split.
  - intros [-> | ->]; [done|]. by rewrite andb_false_r.
  - intros -> ->. cbn [negb andb]. split_and!.
    + apply (exec_OpAddArticle_objects MultiArticle _ s _ Hwf eq_refl).
    + apply saveState_NoDrift.
    + reflexivity.
Qed.

Lemma submitText_behaviour_witness :
  let s' := submitText 1700000001000 "  " "Some text" sampleState in
  s' = alert "Please provide both a title and content for the article." sampleState.
Proof.
  cbv zeta.
  assert (wf sampleState) as Hwf by (split; simpl; repeat constructor).
  destruct (submitText_behaviour 1700000001000 "  " "Some text" sampleState Hwf)
    as [H _].
  apply H. left. reflexivity.
Defined.

Lemma fetch_functions_frame (URL_error : string → option string)
    (URL_opaquePath : string → bool) (v : Variant) (u : string) (s : State) :
  let s' := match v with
            | MultiArticle => fetchArticlesFromSource URL_error URL_opaquePath u s
            | SingleArticle => fetchArticleFromBackend URL_error URL_opaquePath u s
            end in
  articles s' = articles s ∧ heap s' = heap s ∧ localStorage s' = localStorage s
  ∧ backendSettings s' = backendSettings s
  ∧ generateCalls s' = generateCalls s.
Proof.
  cbv zeta. unfold fetchArticlesFromSource, fetchArticleFromBackend.
  destruct v;
    (destruct (settingsMissing (backendSettings s)); [by split_and!|]);
    (destruct (backendSettings s) as [b|] eqn:Hb; [|by split_and!]);
    destruct (URL_error (url b)); by split_and!.
Qed.

(** X16. The URL form ignores an input that is empty or white space only
    (no notice, no change at all); it refuses an input on which [new URL]
    throws with its notice and sends nothing; and whatever the input, it
    never changes the list, the objects, the storage or the settings. *)
Theorem addUrlForm_submit_behaviour (URL_error : string → option string)
    (URL_opaquePath : string → bool)
    (v : Variant) (sourceUrlInput : string) (s : State) :
  let s' := addUrlForm_submit URL_error URL_opaquePath v sourceUrlInput s in
  (allWhiteSpace sourceUrlInput = true → s' = s)
  ∧ (allWhiteSpace sourceUrlInput = false →
     ∀ m, URL_error (trim sourceUrlInput) = Some m →
          s' = alert "Please enter a valid URL." s)
  ∧ articles s' = articles s ∧ heap s' = heap s ∧ localStorage s' = localStorage s
  ∧ backendSettings s' = backendSettings s.
Proof.
  cbv zeta. unfold addUrlForm_submit. rewrite truthy_trim.
  destruct (allWhiteSpace sourceUrlInput); cbn [negb]; [by split_and!|].
  destruct (URL_error (trim sourceUrlInput)) as [m|] eqn:Hu.
  - by split_and!.
  - destruct (fetch_functions_frame URL_error URL_opaquePath v (trim sourceUrlInput) s)
      as (H1 & H2 & H3 & H4 & _).
    split_and!; try done. 
Qed.

(** ** The grid *)


(** X18. The buttons of a card, clicked.  For an article that its own id
    finds (no article before it in the list carries the same id) and
    whose id is not empty: the Summarize button, when the card has one,
    starts exactly one call, with the prompt of that article; the Remove
    button does nothing when the confirmation is declined, and otherwise
    removes every article with that id.  A button without a data-id, or
    with an empty one, does nothing. *)
Theorem grid_buttons_behaviour (v : Variant) (s : State) (l : loc) (a : Article) :
  find_by_id (heap s) (id a) (articles s) = Some (l, a) →
  id a ≠ "" →
  (∀ b confirmed, summarizeButtonOf (renderCard a) = Some b →
     generateCalls (articlesGrid_click v (Some b) confirmed s)
     = generateCalls s
       ++ [mkGenerateContentRequest summarizeModel (summarizePrompt v a)]
     ∧ summarizing (articlesGrid_click v (Some b) confirmed s)
       = summarizing s ++ [l])
  ∧ articlesGrid_click v (Some (removeButtonOf (renderCard a))) false s = s
  ∧ Forall (λ x, id x ≠ id a)
      (articleObjects
         (articlesGrid_click v (Some (removeButtonOf (renderCard a))) true s))
  ∧ (∀ b confirmed, truthy_string (datasetId b) = false →
       articlesGrid_click v (Some b) confirmed s = s).
Proof.
  intros Hfind Hid.
  destruct (id a) as [|c i] eqn:Hi; [done|].
  split_and!.
  - intros b confirmed Hb. unfold summarizeButtonOf, renderCard in Hb; simpl in Hb.
    destruct (truthy_bool (isSummarizing a)) eqn:Hflag; [done|].
    destruct (negb (truthy_string (summary a))); [|done].
    injection Hb as <-. rewrite Hi. unfold articlesGrid_click; simpl.
    rewrite (handleSummarize_starts v s (String c i) l a Hfind); [done|].
    intros Hf. by rewrite Hf in Hflag.
  - unfold articlesGrid_click, removeButtonOf; simpl. by rewrite Hi.
  - unfold articlesGrid_click, removeButtonOf; simpl. rewrite Hi; simpl.
    rewrite removeArticle_objects. apply Forall_forall.
    intros x Hx%list_elem_of_In%filter_In. destruct Hx as [_ Hx].
    by apply bool_decide_eq_true in Hx.
  - intros b confirmed Hb. unfold articlesGrid_click. by rewrite Hb.
Qed.

Lemma grid_buttons_behaviour_witness :
  articlesGrid_click MultiArticle (Some (removeButtonOf (renderCard sampleA))) false
    sampleState = sampleState
  ∧ articleObjects
      (articlesGrid_click MultiArticle (Some (removeButtonOf (renderCard sampleA)))
         true sampleState) = [sampleB].
Proof.
  assert ("art-1700000000000-0" ≠ "") as Hid by discriminate.
  destruct (grid_buttons_behaviour MultiArticle sampleState 0 sampleA eq_refl Hid)
    as (_ & H & _).
  split; [exact H|reflexivity].
Defined.

(** ** Start-up *)




(** ** References stay valid *)

Lemma length_omap_valid {A} (h : list A) (ls : list nat) :
  Forall (λ l, l < length h) ls →
  length (omap (λ l, h !! l) ls) = length ls.
Proof.
  induction 1 as [|l ls Hl _ IH]; [done|].
  destruct (lookup_lt_is_Some_2 h l Hl) as [a Ha].
  change (omap (λ l, h !! l) (l :: ls))
    with (match h !! l with
          | Some y => y :: omap (λ l, h !! l) ls
          | None => omap (λ l, h !! l) ls
          end).
  rewrite Ha. simpl. by rewrite IH.
Qed.

Lemma run_wf (v : Variant) (ops : list Op) (s s' : State) :
  wf s → run v ops s = Some s' → wf s'.
Proof.
  revert s. induction ops as [|op ops IH]; intros s Hwf; simpl.
  - by intros [= <-].
  - destruct (exec v op s) as [s1|] eqn:Hexec; [|done]. simpl.
    apply IH. by eapply exec_wf.
Qed.

(** X20. References never dangle: when every reference held by the list
    and by the outstanding calls is valid, this is still so after any
    sequence of adds, removals, summarize invocations and completions.
    The list then has one object per entry, and the grid one card per
    entry (or the placeholder when the list is empty). *)
Theorem references_stay_valid (v : Variant) (ops : list Op) (s s' : State) :
  wf s → run v ops s = Some s' →
  wf s'
  ∧ length (articleObjects s') = length (articles s')
  ∧ match renderArticles s' with
    | GridEmpty => articles s' = []
    | GridCards cards => length cards = length (articles s') ∧ cards ≠ []
    end.
Proof.
  intros Hwf Hrun. pose proof (run_wf v ops s s' Hwf Hrun) as Hwf'.
  assert (length (articleObjects s') = length (articles s')) as Hlen.
  { apply length_omap_valid, Hwf'. }
  split_and!; [done..|].
  unfold renderArticles. destruct (articles s') as [|x xs] eqn:Ha; [done|].
  rewrite length_fmap. split; [done|].
  destruct (articleObjects s'); [done|]. by rewrite fmap_cons.
Qed.

Lemma references_stay_valid_witness :
  ∃ s',
    run MultiArticle
      [OpAddArticles [sampleNew1; sampleDup1]; OpSummarize "art-1700000000900-0";
       OpRemove "art-1700000000000-1"] sampleState = Some s'
    ∧ wf s' ∧ length (articleObjects s') = length (articles s').
Proof.
  pose (ops := [OpAddArticles [sampleNew1; sampleDup1];
                OpSummarize "art-1700000000900-0"; OpRemove "art-1700000000000-1"]).
  pose (s' := default sampleState (run MultiArticle ops sampleState)).
  assert (wf sampleState) as Hwf by (split; simpl; repeat constructor).
  assert (run MultiArticle ops sampleState = Some s') as Hrun
    by (vm_compute; reflexivity).
  destruct (references_stay_valid MultiArticle ops sampleState s' Hwf Hrun)
    as (H1 & H2 & _).
  exists s'. by split_and!.
Defined.

(** [addArticles] has two outcomes and no other: either it shows the
    "no new articles" notice and writes nothing, the list being as before;
    or it lengthens the list, writes the snapshot of the new list and
    shows no notice. *)
Lemma addArticles_outcomes (newArticles : list loc) (s : State) :
  let s' := addArticles newArticles s in
  (articles s' = articles s ∧ localStorage s' = localStorage s
   ∧ alerts s' = alerts s ++ [noNewArticlesMsg])
  ∨ (length (articles s) < length (articles s') ∧ NoDrift s'
     ∧ alerts s' = alerts s).
Proof.
  cbv zeta. unfold addArticles.
  destruct (List.filter _ newArticles) as [|x xs]; [by left|right].
  split_and!.
  - simpl. rewrite length_app. lia.
  - apply saveState_NoDrift.
  - reflexivity.
Qed.

(** ** Settings form and id collisions *)

Lemma saveSettings_localStorage (backendUrlInput backendKeyInput : string) (s : State) :
  localStorage (saveSettings backendUrlInput backendKeyInput s)
  = storedBy (articleObjects s)
      (Some (mkBackendSettings (trim backendUrlInput) (trim backendKeyInput)))
      (localStorage s).
Proof. reflexivity. Qed.

(** Saving the settings form stores the trimmed url and key in
    memory and under the settings key, closes the modal, confirms with a
    notice, and, because it goes through [saveState], also rewrites the
    article snapshot from the current list; the list and its objects are
    not touched. *)
Lemma saveSettings_effects (backendUrlInput backendKeyInput : string) (s : State) :
  let s' := saveSettings backendUrlInput backendKeyInput s in
  let b := mkBackendSettings (trim backendUrlInput) (trim backendKeyInput) in
  backendSettings s' = Some b
  ∧ localStorage s' !! settingsKey = Some (settings_to_json b)
  ∧ localStorage s' !! articlesKey = Some (stringify_articles (articleObjects s))
  ∧ (∀ k, k ≠ articlesKey → k ≠ settingsKey →
          localStorage s' !! k = localStorage s !! k)
  ∧ articles s' = articles s ∧ heap s' = heap s
  ∧ settingsModalOpen s' = false
  ∧ alerts s' = alerts s ++ ["Settings saved successfully."].
Proof.
  cbv zeta. rewrite saveSettings_localStorage.
  split_and!; try done.
  - rewrite storedBy_lookup.
    rewrite decide_False by (symmetry; apply keys_distinct).
    by rewrite decide_True.
  - rewrite storedBy_lookup. by rewrite decide_True.
  - intros k Ha Hs. rewrite storedBy_lookup. by rewrite !decide_False.
Qed.

(** X21. When several listed articles carry the same id, summarize acts
    on the first of them in list order and on no other: the call carries
    the prompt of the first, and every other object is left as it was. *)
Theorem summarize_targets_first_match (v : Variant) (s : State)
    (before after : list loc) (l : loc) (a : Article) :
  articles s = before ++ l :: after →
  heap s !! l = Some a →
  (∀ x b, x ∈ before → heap s !! x = Some b → id b ≠ id a) →
  isSummarizing a ≠ Some true →
  let s' := handleSummarize v (id a) s in
  generateCalls s'
  = generateCalls s ++ [mkGenerateContentRequest summarizeModel (summarizePrompt v a)]
  ∧ heap s' !! l = Some (set_isSummarizing (Some true) a)
  ∧ (∀ x, x ≠ l → heap s' !! x = heap s !! x)
  ∧ summarizing s' = summarizing s ++ [l].
Proof.
  intros Harts Hl Hbefore Hflag. cbv zeta.
  assert (find_by_id (heap s) (id a) (articles s) = Some (l, a)) as Hfind.
  { rewrite Harts. clear Harts.
    induction before as [|x before IH]; simpl.
    - rewrite Hl. by rewrite decide_True.
    - destruct (heap s !! x) as [b|] eqn:Hx.
      + rewrite decide_False.
        * apply IH. intros y c Hy. apply Hbefore. by apply list_elem_of_further.
        * apply (Hbefore x b); [apply list_elem_of_here|done].
      + apply IH. intros y c Hy. apply Hbefore. by apply list_elem_of_further. }
  rewrite (handleSummarize_starts v s (id a) l a Hfind Hflag). simpl.
  split_and!; try done.
  - apply list_lookup_insert_eq. by eapply lookup_lt_Some.
  - intros x Hx. by apply list_lookup_insert_ne.
Qed.

Lemma summarize_targets_first_match_witness :
  let twin := mkArticle "art-1700000000000-0" "Twin" "Other body"
                "https://news.example/t" None None in
  let s := set_articles [0; 1; 2] (set_heap [sampleA; sampleB; twin] sampleState) in
  let s' := handleSummarize MultiArticle "art-1700000000000-0" s in
  heap s' !! 0 = Some (set_isSummarizing (Some true) sampleA)
  ∧ heap s' !! 2 = Some twin.
Proof.
  cbv zeta.
  pose (twin := mkArticle "art-1700000000000-0" "Twin" "Other body"
                  "https://news.example/t" None None).
  pose (s := set_articles [0; 1; 2] (set_heap [sampleA; sampleB; twin] sampleState)).
  assert (isSummarizing sampleA ≠ Some true) as Hflag by discriminate.
  destruct (summarize_targets_first_match MultiArticle s [] [1; 2] 0 sampleA
              eq_refl eq_refl) as (_ & H0 & Hother & _); [|exact Hflag|].
  { intros x b Hx. by apply elem_of_nil in Hx. }
  assert (2 ≠ 0) as Hne by discriminate.
  split; [exact H0|]. etransitivity; [exact (Hother 2 Hne)|reflexivity].
Defined.

(** ** The single-article listing does not deduplicate *)

Lemma NoDrift_button (b : bool) (s : State) :
  NoDrift s → NoDrift (set_addUrlBtnDisabled b s).
Proof. intros H. exact H. Qed.

(** X22. In the README listing a fetched article is always added: there
    is no test against the sources already listed, so fetching the same
    URL twice puts two articles with that source at the head of the list,
    the later one first, each with the id "url-" and its time; the
    snapshot is written each time and no notice is shown. *)
Theorem single_fetch_adds_duplicates (now1 now2 : N) (u t1 c1 t2 c2 : string)
    (s : State) :
  wf s →
  let s1 := fetchArticleFromBackend_resume now1 u (FetchOneOk t1 c1) s in
  let s2 := fetchArticleFromBackend_resume now2 u (FetchOneOk t2 c2) s1 in
  articleObjects s2
  = mkArticle ("url-" +:+ pretty now2) t2 c2 u None None
    :: mkArticle ("url-" +:+ pretty now1) t1 c1 u None None
    :: articleObjects s
  ∧ NoDrift s2 ∧ alerts s2 = alerts s ∧ addUrlBtnDisabled s2 = false.
Proof.
  intros Hwf. cbv zeta.
  pose (a1 := mkArticle ("url-" +:+ pretty now1) t1 c1 u None None).
  pose (a2 := mkArticle ("url-" +:+ pretty now2) t2 c2 u None None).
  pose (s1 := addArticle (allocate1 a1 s).1 (allocate1 a1 s).2).
  assert (exec SingleArticle (OpAddArticle a1) s = Some s1) as H1 by reflexivity.
  pose proof (exec_wf SingleArticle _ s s1 Hwf H1) as Hwf1.
  pose proof (exec_OpAddArticle_objects SingleArticle a1 s s1 Hwf H1) as Hobjs1.
  assert (wf (set_addUrlBtnDisabled false s1)) as Hwf1' by exact Hwf1.
  pose (s2 := addArticle (allocate1 a2 (set_addUrlBtnDisabled false s1)).1
                (allocate1 a2 (set_addUrlBtnDisabled false s1)).2).
  assert (exec SingleArticle (OpAddArticle a2) (set_addUrlBtnDisabled false s1)
          = Some s2) as H2 by reflexivity.
  pose proof (exec_OpAddArticle_objects SingleArticle a2 _ s2 Hwf1' H2) as Hobjs2.
  change (articleObjects (set_addUrlBtnDisabled false s1))
    with (articleObjects s1) in Hobjs2.
  rewrite Hobjs1 in Hobjs2.
  split_and!.
  - exact Hobjs2.
  - unfold fetchArticleFromBackend_resume at 1; cbv zeta.
    apply NoDrift_button. unfold allocate1, addArticle at 1; cbv beta iota.
    apply saveState_NoDrift.
  - reflexivity.
  - reflexivity.
Qed.

Lemma single_fetch_adds_duplicates_witness :
  length
    (articleObjects
       (fetchArticleFromBackend_resume 1700000002000 "https://news.example/a"
          (FetchOneOk "Alpha" "First body")
          (fetchArticleFromBackend_resume 1700000001000 "https://news.example/a"
             (FetchOneOk "Alpha" "First body") sampleState))) = 4.
Proof.
  assert (wf sampleState) as Hwf by (split; simpl; repeat constructor).
  destruct (single_fetch_adds_duplicates 1700000001000 1700000002000
              "https://news.example/a" "Alpha" "First body" "Alpha" "First body"
              sampleState Hwf) as (-> & _).
  reflexivity.
Defined.

(** ** The snapshot follows the list, write by write *)

Lemma stringify_articles_inj (xs ys : list Article) :
  stringify_articles xs = stringify_articles ys → xs = ys.
Proof.
  unfold stringify_articles. intros [= H].
  assert (Some xs = Some ys) as [= ->]; [|done].
  by rewrite <- (mapM_article_of_to_json xs), <- (mapM_article_of_to_json ys), H.
Qed.

Lemma lagsBehind_clearFlag (snap objs : list Article) :
  Forall2 lagsBehind snap objs → clearFlag <$> snap = clearFlag <$> objs.
Proof.
  induction 1 as [|a b snap objs Hab _ IH]; [done|].
  rewrite !fmap_cons. f_equal; [|exact IH].
  destruct Hab as [->|[_ ->]]; [done|]. by destruct a.
Qed.

Lemma lagsBehind_count (snap objs : list Article) :
  Forall2 lagsBehind snap objs → countSummarizing snap ≤ countSummarizing objs.
Proof.
  unfold countSummarizing.
  induction 1 as [|a b snap objs Hab _ IH]; [done|]. cbn [List.filter].
  destruct Hab as [->|[Ha ->]].
  - destruct (truthy_bool (isSummarizing b)); simpl; lia.
  - destruct (truthy_bool (isSummarizing a)) eqn:Ht.
    + by apply truthy_bool_true in Ht.
    + simpl. lia.
Qed.

Lemma Forall2_lagsBehind_refl (objs : list Article) : Forall2 lagsBehind objs objs.
Proof. induction objs; constructor; [by left|done]. Qed.

(** Raising the flag of the object at [l]: what the list sees. *)
Lemma raise_flag_objects (h : list Article) (l : loc) (a : Article) (ls : list loc) :
  h !! l = Some a → isSummarizing a ≠ Some true →
  let h' := <[l := set_isSummarizing (Some true) a]> h in
  Forall2 (λ b b', b' = b ∨ (b = a ∧ b' = set_isSummarizing (Some true) a))
    (omap (λ x, h !! x) ls) (omap (λ x, h' !! x) ls)
  ∧ countSummarizing (omap (λ x, h !! x) ls)
    ≤ countSummarizing (omap (λ x, h' !! x) ls)
  ∧ (l ∈ ls → countSummarizing (omap (λ x, h !! x) ls)
              < countSummarizing (omap (λ x, h' !! x) ls)).
Proof.
  intros Hl Ha. cbv zeta.
  assert (truthy_bool (isSummarizing a) = false) as Hta.
  { destruct (truthy_bool (isSummarizing a)) eqn:Ht; [|done].
    by apply truthy_bool_true in Ht. }
  induction ls as [|x ls (IH1 & IH2 & IH3)].
  - split_and!; [constructor|done|by intros ?%elem_of_nil].
  - change (omap (λ x, h !! x) (x :: ls))
      with (match h !! x with
            | Some y => y :: omap (λ x, h !! x) ls
            | None => omap (λ x, h !! x) ls
            end).
    change (omap (λ x0, <[l:=set_isSummarizing (Some true) a]> h !! x0) (x :: ls))
      with (match <[l:=set_isSummarizing (Some true) a]> h !! x with
            | Some y => y :: omap (λ x0, <[l:=set_isSummarizing (Some true) a]> h !! x0) ls
            | None => omap (λ x0, <[l:=set_isSummarizing (Some true) a]> h !! x0) ls
            end).
    destruct (decide (l = x)) as [<-|Hne].
    + rewrite list_lookup_insert_eq by (by eapply lookup_lt_Some). rewrite Hl.
      unfold countSummarizing in *. cbn [List.filter]. rewrite Hta. simpl.
      split_and!; [constructor; [by right|done]|lia|intros _; lia].
    + rewrite list_lookup_insert_ne by done.
      destruct (h !! x) as [b|]; [|split_and!; [done..|]].
      * unfold countSummarizing in *. cbn [List.filter].
        split_and!.
        -- constructor; [by left|done].
        -- destruct (truthy_bool (isSummarizing b)); simpl; lia.
        -- intros [?|Hin]%elem_of_cons; [done|]. specialize (IH3 Hin).
           destruct (truthy_bool (isSummarizing b)); simpl; lia.
      * intros [?|Hin]%elem_of_cons; [done|]. by apply IH3.
Qed.

Lemma lagsBehind_raise (a : Article) (snap objs objs' : list Article) :
  isSummarizing a ≠ Some true →
  Forall2 lagsBehind snap objs →
  Forall2 (λ b b', b' = b ∨ (b = a ∧ b' = set_isSummarizing (Some true) a)) objs objs' →
  Forall2 lagsBehind snap objs'.
Proof.
  intros Ha H1. revert objs'.
  induction H1 as [|x b snap objs Hxb _ IH]; intros objs' H2; inversion H2; subst.
  - constructor.
  - constructor; [|by apply IH].
    match goal with H : _ ∨ _ |- _ => destruct H as [->|[-> ->]] end; [done|].
    destruct Hxb as [->|[_ Hb]]; [by right|].
    exfalso. apply Ha. rewrite Hb. reflexivity.
Qed.

Lemma exec_OpAddArticles_unfold (v : Variant) (data : list Article) (s : State) :
  exec v (OpAddArticles data) s
  = Some (addArticles (seq (length (heap s)) (length data))
            (set_heap (heap s ++ data) s)).
Proof. reflexivity. Qed.

Lemma exec_SnapshotLags (v : Variant) (op : Op) (s s' : State) (unsaved : bool) :
  wf s → SnapshotLags s unsaved → exec v op s = Some s' →
  SnapshotLags s'
    (if writes op s then false else if startsCall op s then true else unsaved).
Proof.
  intros Hwf Hlag Hexec.
  assert (∀ t, NoDrift t → SnapshotLags t false) as Hclean.
  { intros t Hnd. exists (articleObjects t).
    split_and!; [exact Hnd|apply Forall2_lagsBehind_refl|done]. }
  destruct op as [data|b|i|i|l r].
  - rewrite exec_OpAddArticles_unfold in Hexec. injection Hexec as <-.
    unfold writes, addsSomething, startsCall, allocate, addArticles.
    destruct (List.filter _ _) as [|x xs].
    + destruct Hlag as (snap & Hs & Hf & Hu). exists snap.
      assert (articleObjects (alert noNewArticlesMsg (set_heap (heap s ++ data) s))
              = articleObjects s) as ->.
      { unfold articleObjects; simpl. apply omap_lookup_app_old, Hwf. }
      done.
    + apply Hclean, saveState_NoDrift.
  - apply Hclean. by eapply (exec_writes_NoDrift v (OpAddArticle b)).
  - apply Hclean. by eapply (exec_writes_NoDrift v (OpRemove i)).
  - simpl in Hexec. injection Hexec as <-. unfold writes, startsCall, handleSummarize.
    destruct (find_by_id (heap s) i (articles s)) as [[l a]|] eqn:Hf; [|done].
    destruct (truthy_bool (isSummarizing a)) eqn:Ht; [done|]. cbn [negb].
    destruct (find_by_id_Some _ _ _ _ _ Hf) as (Hl & _ & Hin).
    assert (isSummarizing a ≠ Some true) as Ha.
    { intros H. by rewrite H in Ht. }
    destruct (raise_flag_objects (heap s) l a (articles s) Hl Ha) as (Hr1 & Hr2 & Hr3).
    destruct Hlag as (snap & Hs & Hfa & Hu).
    match goal with |- SnapshotLags ?t _ => change (SnapshotLags t true) end.
    exists snap. split_and!.
    + exact Hs.
    + unfold articleObjects; simpl. by eapply lagsBehind_raise.
    + unfold articleObjects; simpl.
      pose proof (lagsBehind_count _ _ Hfa) as Hle.
      specialize (Hr3 Hin). unfold articleObjects in Hle. lia.
    + simpl. intros Hnil. by apply app_nil in Hnil as [_ ?].
  - apply Hclean. by eapply (exec_writes_NoDrift v (OpSummarizeSettled l r)).
Qed.

Lemma run_SnapshotLags (v : Variant) (ops : list Op) (s s' : State) (unsaved : bool) :
  wf s → SnapshotLags s unsaved → run v ops s = Some s' →
  SnapshotLags s' (flagUnsaved v ops s unsaved).
Proof.
  revert s unsaved. induction ops as [|op ops IH]; intros s unsaved Hwf Hlag; simpl.
  - by intros [= <-].
  - destruct (exec v op s) as [s1|] eqn:Hexec; [|done]. simpl. intros Hrun.
    apply (IH s1); [by eapply exec_wf|by eapply exec_SnapshotLags|done].
Qed.

Lemma exec_writes_state_NoDrift (v : Variant) (op : Op) (s s' : State) :
  writes op s = true → exec v op s = Some s' → NoDrift s'.
Proof.
  intros Hw Hexec. destruct op as [data|b|i|i|l r]; try done.
  - rewrite exec_OpAddArticles_unfold in Hexec. injection Hexec as <-.
    unfold writes, addsSomething, allocate in Hw. unfold addArticles.
    destruct (List.filter _ _) as [|x xs]; [done|]. apply saveState_NoDrift.
  - by eapply (exec_writes_NoDrift v (OpAddArticle b)).
  - by eapply (exec_writes_NoDrift v (OpRemove i)).
  - by eapply (exec_writes_NoDrift v (OpSummarizeSettled l r)).
Qed.

(** C1, as the code has it.  Start where the snapshot is the
    serialization of the list, and let any sequence of adds, removals,
    summarize invocations and completions of summarization calls run.
    After each of them the stored snapshot is the serialization of the
    current list, except exactly in this case: a summarize invocation has
    passed the guard (it sets [isSummarizing] without writing) and no
    write has happened since.  Every removal, every single-article add,
    every add that adds something and every completion is a write; an add
    that finds nothing new and a summarize invocation are not.  In the
    excepted case a summarization call is outstanding and the snapshot
    differs from the list in [isSummarizing] flags only. *)
Theorem C1_snapshot_follows_list (v : Variant) (ops : list Op) (s s' : State) :
  wf s → NoDrift s →
  run v ops s = Some s' →
  (NoDrift s' ↔ flagUnsaved v ops s false = false)
  ∧ (flagUnsaved v ops s false = true → summarizing s' ≠ [])
  ∧ SnapshotUpToFlags s'
  ∧ (∀ ops0 op s1, ops = ops0 ++ [op] → run v ops0 s = Some s1 →
       writes op s1 = true → NoDrift s').
Proof.
  intros Hwf Hnd Hrun.
  assert (SnapshotLags s false) as Hlag0.
  { exists (articleObjects s).
    split_and!; [exact Hnd|apply Forall2_lagsBehind_refl|done]. }
  destruct (run_SnapshotLags v ops s s' false Hwf Hlag0 Hrun)
    as (snap & Hs & Hf & Hu).
  split_and!.
  - destruct (flagUnsaved v ops s false).
    + split; [|done]. intros Hnd'. unfold NoDrift in Hnd'. rewrite Hs in Hnd'.
      apply (inj Some) in Hnd' as Heq. apply stringify_articles_inj in Heq.
      destruct Hu as [Hlt _]. rewrite Heq in Hlt. lia.
    + split; [done|]. intros _. unfold NoDrift. by rewrite Hs, Hu.
  - intros Ht. rewrite Ht in Hu. by destruct Hu.
  - exists snap. split; [done|]. by apply lagsBehind_clearFlag.
  - intros ops0 op s1 -> H0 Hw. rewrite run_app, H0 in Hrun. simpl in Hrun.
    destruct (exec v op s1) as [s2|] eqn:Hexec; [|done]. injection Hrun as <-.
    by eapply exec_writes_state_NoDrift.
Qed.

Lemma C1_witness :
  wf sampleState ∧ NoDrift sampleState
  ∧ ∃ s',
      run MultiArticle
        [OpSummarize "art-1700000000000-0"; OpAddArticles [sampleDup1];
         OpSummarizeSettled 0 (Fulfilled (Some " A summary. "));
         OpAddArticles [sampleDup1]] sampleState
      = Some s'
      ∧ NoDrift s'
      ∧ SnapshotUpToFlags s'.
Proof.
  pose (ops := [OpSummarize "art-1700000000000-0"; OpAddArticles [sampleDup1];
                OpSummarizeSettled 0 (Fulfilled (Some " A summary. "));
                OpAddArticles [sampleDup1]]).
  pose (s' := default sampleState (run MultiArticle ops sampleState)).
  assert (wf sampleState) as Hwf by (split; simpl; repeat constructor).
  assert (NoDrift sampleState) as Hnd by reflexivity.
  assert (run MultiArticle ops sampleState = Some s') as Hrun
    by (vm_compute; reflexivity).
  assert (flagUnsaved MultiArticle ops sampleState false = false) as Hflag
    by (vm_compute; reflexivity).
  split_and!; [done..|].
  exists s'. split; [exact Hrun|].
  destruct (C1_snapshot_follows_list MultiArticle ops sampleState s'
              Hwf Hnd Hrun) as (H1 & _ & H3 & _).
  split; [by apply H1|exact H3].
Defined.
